(** * Deploy-by-folder-swap pipeline: release store and build orchestrator

    A shallow embedding of [deploy_tool/core/aws_manager.py],
    [deploy_tool/core/build_manager.py] and the helpers of
    [deploy_tool/core/utils.py] they call, followed by the properties of the
    specification that concern them.

    Python code that raises and mutates is embedded in a state-and-exception
    monad [py St]; the object store and the file system are finite maps. *)

From Stdlib Require Import Ascii String DecimalString.
From stdpp Require Import gmap strings list sorting fin_maps.

Set Warnings "-register-all".
Local Open Scope string_scope.
Local Open Scope list_scope.

(** ** Python control flow: return, raise, try/except *)

Module Py.

(** What running a block yields: a value, or a raised [Exception] whose
    [str(e)] is the carried message. *)
Inductive outcome (A : Type) : Type :=
  | Return (a : A)
  | Raise (e : string).
Global Arguments Return {A} a.
Global Arguments Raise {A} e.

(** State is threaded through and survives a raise: effects performed
    before an exception are not rolled back. *)
Definition py (St A : Type) : Type := St → outcome A * St.

Global Instance py_ret {St} : MRet (py St) := λ A a st, (Return a, st).

Global Instance py_bind {St} : MBind (py St) := λ A B k m st,
  match m st with
  | (Return a, st') => k a st'
  | (Raise e, st') => (Raise e, st')
  end.

Definition raise {St A} (e : string) : py St A := λ st, (Raise e, st).

(** [try: body / except Exception as e: handler e] *)
Definition try_except {St A} (body : py St A) (handler : string → py St A)
    : py St A :=
  λ st, match body st with
        | (Return a, st') => (Return a, st')
        | (Raise e, st') => handler e st'
        end.

Definition get_state {St} : py St St := λ st, (Return st, st).
Definition modify {St} (f : St → St) : py St unit := λ st, (Return tt, f st).

(** [for x in l: acc = body acc x] *)
Fixpoint for_fold {St A B} (l : list A) (acc : B) (body : B → A → py St B)
    : py St B :=
  match l with
  | [] => mret acc
  | x :: l' => acc' ← body acc x; for_fold l' acc' body
  end.

(** [for x in l: body x] *)
Definition for_each {St A} (l : list A) (body : A → py St unit) : py St unit :=
  for_fold l tt (λ _ x, body x).

End Py.
Export Py.

(** ** Python [str] and [list] primitives used by the sources *)

Module PyStr.

(** [s[n:]] for [0 <= n] *)
Fixpoint skip (n : nat) (s : string) : string :=
  match n, s with
  | 0, _ => s
  | S n', String _ s' => skip n' s'
  | S _, EmptyString => EmptyString
  end.

(** [s.replace(a, b)] for single characters *)
Fixpoint replace_char (a b : ascii) (s : string) : string :=
  match s with
  | EmptyString => EmptyString
  | String c s' =>
      String (if Ascii.eqb c a then b else c) (replace_char a b s')
  end.

Definition backslash : ascii := "\"%char.
Definition slash : ascii := "/"%char.

(** [s.rstrip(c)] *)
Fixpoint rstrip (c : ascii) (s : string) : string :=
  match s with
  | EmptyString => EmptyString
  | String a s' =>
      match rstrip c s' with
      | EmptyString => if Ascii.eqb a c then EmptyString else String a EmptyString
      | r => String a r
      end
  end.

(** [s.lower()] on the ASCII range *)
Definition lower_char (c : ascii) : ascii :=
  let n := nat_of_ascii c in
  if ((65 <=? n) && (n <=? 90))%nat then ascii_of_nat (n + 32) else c.

Fixpoint lower (s : string) : string :=
  match s with
  | EmptyString => EmptyString
  | String c s' => String (lower_char c) (lower s')
  end.

(** [sep in s] for a single character *)
Fixpoint contains_char (c : ascii) (s : string) : bool :=
  match s with
  | EmptyString => false
  | String a s' => Ascii.eqb a c || contains_char c s'
  end.

(** [str(n)] for a non-negative integer *)
Definition str_of_nat (n : nat) : string := NilEmpty.string_of_uint (Nat.to_uint n).

(** [sep.join(l)] *)
Fixpoint join (sep : string) (l : list string) : string :=
  match l with
  | [] => ""
  | [x] => x
  | x :: l' => x +:+ sep +:+ join sep l'
  end.

(** [l[i:j]] for [0 <= i <= j] *)
Definition slice {A} (l : list A) (i j : nat) : list A := take (j - i) (drop i l).

(** [l[k:]], negative [k] counting from the end *)
Definition slice_from {A} (l : list A) (k : Z) : list A :=
  if (0 <=? k)%Z then drop (Z.to_nat k) l
  else drop (length l - Z.to_nat (- k)) l.

(** [range(0, stop, step)] *)
Definition range_step (stop step : nat) : list nat :=
  (λ j, j * step) <$> seq 0 ((stop + step - 1) / step).

(** [sorted(l, reverse=True)] on strings: code-point order, descending. *)
Definition sorted_reverse (l : list string) : list string :=
  merge_sort (flip String.le) l.

End PyStr.
Export PyStr.

(** [pathlib.PurePosixPath] accessors on a path held as a string *)

Module PyPath.

(** [s[s.rfind(c):]], or [None] when [c] does not occur *)
Fixpoint rfind_from (c : ascii) (s : string) : option string :=
  match s with
  | EmptyString => None
  | String a s' =>
      match rfind_from c s' with
      | Some r => Some r
      | None => if Ascii.eqb a c then Some s else None
      end
  end.

(** [Path.name]: the final component *)
Definition name (p : string) : string :=
  match rfind_from slash p with
  | Some r => skip 1 r
  | None => p
  end.

(** [Path.suffix]: [name[i:]] for [i = name.rfind('.')] when
    [0 < i < len(name) - 1], else the empty string *)
Definition suffix (p : string) : string :=
  match name p with
  | EmptyString => ""
  | String _ rest =>
      match rfind_from "."%char rest with
      | Some r => if (1 <? String.length r)%nat then r else ""
      | None => ""
      end
  end.

(** [dir / child] *)
Definition joinpath (dir child : string) : string := dir +:+ "/" +:+ child.

End PyPath.

(** ** The object store

    One bucket: a finite map from keys to stored objects.  Every client call
    is a request that the service may reject; [faults] is the schedule of
    rejections the environment will produce (one entry consumed per request,
    [Some e] rejecting with a [ClientError] whose text is [e]; an exhausted
    schedule rejects nothing), and [trace] records each request made together
    with its fate. *)

Module S3.

Record object := {
  body : string;
  ContentType : string;
  CacheControl : string
}.

Inductive api_call :=
  | ListObjectsV2 (Prefix : string)
  | DeleteObjects (Keys : list string)
  | CopyObject (CopySource Key : string)
  | UploadFile (Key : string).

Record bucket := {
  objects : gmap string object;
  faults : list (option string);
  trace : list (api_call * option string)
}.

(** One request: rejected by the environment, or served on the stored
    objects (which may itself fail, e.g. [NoSuchKey]). *)
Definition api {A} (c : api_call)
    (serve : gmap string object → outcome (A * gmap string object))
    : py bucket A :=
  λ st,
    let rest := tail (faults st) in
    match head (faults st) with
    | Some (Some e) =>
        (Raise e, {| objects := objects st; faults := rest;
                     trace := trace st ++ [(c, Some e)] |})
    | _ =>
        match serve (objects st) with
        | Return (a, m') =>
            (Return a, {| objects := m'; faults := rest;
                          trace := trace st ++ [(c, None)] |})
        | Raise e =>
            (Raise e, {| objects := objects st; faults := rest;
                         trace := trace st ++ [(c, Some e)] |})
        end
    end.

(** Listings are returned in ascending key order. *)
Definition sorted_keys (m : gmap string object) : list string :=
  merge_sort String.le (map_to_list m).*1.

Definition keys_with_prefix (Prefix : string) (m : gmap string object)
    : list string :=
  filter (λ k, Is_true (String.prefix Prefix k)) (sorted_keys m).

(** A listing is served in pages of at most [MaxKeys] entries; an empty
    listing is one empty page. *)
Definition MaxKeys : nat := 1000.

Definition pages_of {A} (l : list A) : list (list A) :=
  match l with
  | [] => [[]]
  | _ => (λ i, slice l i (i + MaxKeys)) <$> range_step (length l) MaxKeys
  end.

(** With a [Delimiter], keys that contain it after the prefix are rolled up
    into one [CommonPrefixes] entry each; the others stay in [Contents]. *)
Inductive entry :=
  | Contents (Key : string)
  | CommonPrefixes (Prefix : string).

Global Instance entry_eq_dec : EqDecision entry.
Proof. solve_decision. Defined.

(** The part of [s] up to and including the first [d] *)
Fixpoint upto_delim (d : ascii) (s : string) : option string :=
  match s with
  | EmptyString => None
  | String a s' =>
      if Ascii.eqb a d then Some (String a EmptyString)
      else String a <$> upto_delim d s'
  end.

Definition roll_up (Prefix : string) (d : ascii) (k : string) : entry :=
  match upto_delim d (skip (String.length Prefix) k) with
  | Some seg => CommonPrefixes (Prefix +:+ seg)
  | None => Contents k
  end.

Definition entries_with_prefix (Prefix : string) (d : ascii)
    (m : gmap string object) : list entry :=
  remove_dups (roll_up Prefix d <$> keys_with_prefix Prefix m).

(** [paginator.paginate(Bucket, Prefix)]: creating the page iterator sends
    nothing.  The pages are those of the listing at creation; each is
    fetched by one [ListObjectsV2] request when the loop reaches it
    ([fetch]).  The callers below never write under the prefix they are
    iterating, so a later page holds what it held at creation. *)
Definition paginate (Prefix : string) : py bucket (list (list string)) :=
  λ st, (Return (pages_of (keys_with_prefix Prefix (objects st))), st).

Definition paginate_delimited (Prefix : string) (d : ascii)
    : py bucket (list (list entry)) :=
  λ st, (Return (pages_of (entries_with_prefix Prefix d (objects st))), st).

Definition fetch {A} (Prefix : string) (page : A) : py bucket A :=
  api (ListObjectsV2 Prefix) (λ m, Return (page, m)).

(** [list_objects_v2(Bucket, Prefix, MaxKeys=1)]: the response's
    ['Contents'], absent (here empty) when nothing matches. *)
Definition list_objects_v2_one (Prefix : string) : py bucket (list string) :=
  api (ListObjectsV2 Prefix) (λ m, Return (take 1 (keys_with_prefix Prefix m), m)).

(** [delete_objects(Bucket, Delete={'Objects': batch, 'Quiet': True})] *)
Definition delete_objects (batch : list string) : py bucket unit :=
  api (DeleteObjects batch) (λ m, Return (tt, foldr delete m batch)).

(** [copy_object(CopySource, Bucket, Key, MetadataDirective='COPY')]: the
    destination receives the source's body and metadata. *)
Definition copy_object (source_key dest_key : string) : py bucket unit :=
  api (CopyObject source_key dest_key)
    (λ m, match m !! source_key with
          | Some o => Return (tt, <[dest_key := o]> m)
          | None => Raise "NoSuchKey"
          end).

(** [upload_file(path, Bucket, Key, ExtraArgs={ContentType, CacheControl})] *)
Definition upload_file (data key content_type cache_control : string)
    : py bucket unit :=
  api (UploadFile key)
    (λ m, Return (tt, <[key := {| body := data; ContentType := content_type;
                                 CacheControl := cache_control |}]> m)).

End S3.

(** ** [deploy_tool/core/aws_manager.py]: the release store

    Console output ([print_step], [print_success], ...) has no bearing on the
    store and is left out of this module. *)

Module aws_manager.
Import S3 PyPath.

Record AWSManager := {
  profile : string;
  region : string;
  bucket_name : string
}.

(** The dictionaries the methods return. *)
Record UploadResult := {
  upload_version : string;
  uploaded_files : nat;
  total_size : nat;
  upload_website_url : string
}.

Record ActivationResult := {
  activation_version : string;
  copied_files : nat;
  activation_website_url : string
}.

(** [get_project_status] returns one of two dictionaries: with
    [website_url], [bucket] and [region], or with [error]; a key that is
    absent, or bound to Python's [None], is [None] here. *)
Record ProjectStatus := {
  is_deployed : bool;
  website_url : option string;
  status_bucket : option string;
  status_region : option string;
  error : option string
}.

(** [x in l] on a list of strings *)
Definition py_in (x : string) (l : list string) : bool :=
  existsb (String.eqb x) l.

(** [d.get(k, default)] on a dictionary literal *)
Fixpoint dict_get (d : list (string * string)) (k default : string) : string :=
  match d with
  | [] => default
  | (k', v) :: d' => if String.eqb k k' then v else dict_get d' k default
  end.

Definition content_types : list (string * string) :=
  [ (".html", "text/html; charset=utf-8");
    (".css", "text/css; charset=utf-8");
    (".js", "application/javascript; charset=utf-8");
    (".mjs", "application/javascript; charset=utf-8");
    (".jsx", "application/javascript; charset=utf-8");
    (".ts", "application/javascript; charset=utf-8");
    (".tsx", "application/javascript; charset=utf-8");
    (".json", "application/json; charset=utf-8");
    (".xml", "application/xml; charset=utf-8");
    (".txt", "text/plain; charset=utf-8");
    (".md", "text/markdown; charset=utf-8");
    (".png", "image/png");
    (".jpg", "image/jpeg");
    (".jpeg", "image/jpeg");
    (".gif", "image/gif");
    (".svg", "image/svg+xml");
    (".ico", "image/x-icon");
    (".webp", "image/webp");
    (".woff", "font/woff");
    (".woff2", "font/woff2");
    (".ttf", "font/ttf");
    (".eot", "application/vnd.ms-fontobject") ].

Definition _get_cache_control (file_path : string) : string :=
  let suffix := lower (suffix file_path) in
  if py_in suffix [".js"; ".css"; ".png"; ".jpg"; ".gif"; ".svg"; ".ico";
                   ".woff"; ".woff2"; ".ttf"]
  then "public, max-age=31536000, immutable"
  else if String.eqb suffix ".html"
  then "public, max-age=0, must-revalidate"
  else if py_in suffix [".json"; ".xml"; ".txt"]
  then "public, max-age=3600"
  else "public, max-age=86400".

Section methods.
(** [mimetypes.guess_type], a table of the host system *)
Variable guess_type : string → option string.
Variable self : AWSManager.

Definition _get_enhanced_content_type (file_path : string) : string :=
  match guess_type file_path with
  | Some content_type => content_type
  | None => dict_get content_types (lower (suffix file_path)) "binary/octet-stream"
  end.

Definition website_url_of (project_name : string) : string :=
  "http://" +:+ bucket_name self +:+ ".s3-website." +:+ region self
    +:+ ".amazonaws.com/" +:+ project_name +:+ "/current/".

(** [build_dir] is the artifact tree as [rglob('*')] filtered by
    [is_file()] yields it: every file once, as its path relative to the
    root and its bytes.  The content type and the cache-control directive
    are computed from the final component of the path, which the path
    under the root and the relative path share. *)
Definition deploy_version (project_name version : string)
    (build_dir : list (string * string)) : py bucket UploadResult :=
  try_except
    (let version_prefix := project_name +:+ "/builds/" +:+ version +:+ "/" in
     let files_to_upload := build_dir in
     if bool_decide (files_to_upload = [])
     then raise "No files found in build directory"
     else
       counters ← for_fold files_to_upload (0, 0)
         (λ counters file,
            let relative_path := file.1 in
            let s3_key :=
              replace_char backslash slash (version_prefix +:+ relative_path) in
            let content_type := _get_enhanced_content_type relative_path in
            let cache_control := _get_cache_control relative_path in
            upload_file file.2 s3_key content_type cache_control ;;
            mret (counters.1 + 1, counters.2 + String.length file.2));
       mret {| upload_version := version;
               uploaded_files := counters.1;
               total_size := counters.2;
               upload_website_url := website_url_of project_name |})
    (λ e, raise ("Failed to upload files: " +:+ e)).

Definition _clear_prefix (prefix : string) : py bucket unit :=
  try_except
    (pages ← paginate prefix;
     objects_to_delete ← for_fold pages []
       (λ acc page,
          contents ← fetch prefix page;
          for_fold contents acc (λ acc key, mret (acc ++ [key])));
     if bool_decide (objects_to_delete = []) then mret tt
     else
       for_each (range_step (length objects_to_delete) 1000)
         (λ i, delete_objects (slice objects_to_delete i (i + 1000))))
    (λ _, mret tt).

Definition _copy_s3_prefix (source_prefix dest_prefix : string)
    : py bucket nat :=
  pages ← paginate source_prefix;
  for_fold pages 0
    (λ copied page,
       contents ← fetch source_prefix page;
       for_fold contents copied
         (λ copied source_key,
            let relative_key := skip (String.length source_prefix) source_key in
            let dest_key := dest_prefix +:+ relative_key in
            copy_object source_key dest_key ;;
            mret (copied + 1))).

Definition activate_version (project_name version : string)
    : py bucket ActivationResult :=
  try_except
    (let source_prefix := project_name +:+ "/builds/" +:+ version +:+ "/" in
     let current_prefix := project_name +:+ "/current/" in
     _clear_prefix current_prefix ;;
     copied ← _copy_s3_prefix source_prefix current_prefix;
     mret {| activation_version := version;
             copied_files := copied;
             activation_website_url := website_url_of project_name |})
    (λ e, raise ("Failed to activate version: " +:+ e)).

Definition common_prefixes_of (page : list entry) : list string :=
  omap (λ e, match e with CommonPrefixes p => Some p | Contents _ => None end) page.

Definition list_versions (project_name : string) : py bucket (list string) :=
  try_except
    (let builds_prefix := project_name +:+ "/builds/" in
     pages ← paginate_delimited builds_prefix slash;
     versions ← for_fold pages []
       (λ versions page,
          page ← fetch builds_prefix page;
          for_fold (common_prefixes_of page) versions
            (λ versions prefix,
               let version :=
                 rstrip slash (skip (String.length builds_prefix) prefix) in
               if bool_decide (version = "") then mret versions
               else mret (versions ++ [version])));
     mret (sorted_reverse versions))
    (λ e, raise ("Failed to list versions: " +:+ e)).

Definition get_project_status (project_name : string)
    : py bucket ProjectStatus :=
  try_except
    (let current_prefix := project_name +:+ "/current/" in
     contents ← list_objects_v2_one current_prefix;
     let deployed := bool_decide (0 < length contents) in
     let url := website_url_of project_name in
     mret {| is_deployed := deployed;
             website_url := if deployed then Some url else None;
             status_bucket := Some (bucket_name self);
             status_region := Some (region self);
             error := None |})
    (λ e, mret {| is_deployed := false; website_url := None; status_bucket := None;
                 status_region := None; error := Some e |}).

Definition cleanup_old_versions (project_name : string) (keep_count : Z)
    : py bucket nat :=
  try_except
    (versions ← list_versions project_name;
     if bool_decide (Z.of_nat (length versions) ≤ keep_count)%Z then mret 0
     else
       let versions_to_delete := slice_from versions keep_count in
       for_fold versions_to_delete 0
         (λ deleted_count version,
            _clear_prefix (project_name +:+ "/builds/" +:+ version +:+ "/") ;;
            mret (deleted_count + 1)))
    (λ e, raise ("Failed to cleanup versions: " +:+ e)).

End methods.

End aws_manager.


(** ** The host of a build: files, console, external processes *)

Module host.

Inductive level := SUCCESS | ERROR | INFO | WARNING | STEP (step : string).

(** [fs] maps a path to the text of the file there.  [build_successful] is
    the local variable of that name in [_build_with_fallbacks]: it is
    assigned inside [try] blocks, and such an assignment survives an
    exception raised later in the block, so it lives in the state. *)
Record world := {
  fs : gmap string string;
  console : list (level * string);
  build_successful : bool
}.

Definition with_fs (f : gmap string string → gmap string string) (w : world)
    : world :=
  {| fs := f (fs w); console := console w;
     build_successful := build_successful w |}.

Definition echo (l : level) (message : string) : py world unit :=
  modify (λ w, {| fs := fs w; console := console w ++ [(l, message)];
                  build_successful := build_successful w |}).

Definition set_build_successful (b : bool) : py world unit :=
  modify (λ w, {| fs := fs w; console := console w; build_successful := b |}).

Definition get_build_successful : py world bool :=
  λ w, (Return (build_successful w), w).

(** [Path.exists()] *)
Definition path_exists (p : string) : py world bool :=
  λ w, (Return (bool_decide (is_Some (fs w !! p))), w).

(** [Path.rename(target)] with POSIX semantics: the target is replaced
    silently; the only failure is a missing source. *)
Definition rename (source target : string) : py world unit :=
  λ w, match fs w !! source with
       | Some text => (Return tt, with_fs (λ m, <[target := text]> (delete source m)) w)
       | None => (Raise ("[Errno 2] No such file or directory: " +:+ source), w)
       end.

(** [Path.read_text(encoding='utf-8')] and [Path.write_text] *)
Definition read_text (p : string) : py world string :=
  λ w, match fs w !! p with
       | Some text => (Return text, w)
       | None => (Raise ("[Errno 2] No such file or directory: " +:+ p), w)
       end.

Definition write_text (p text : string) : py world unit :=
  modify (with_fs (λ m, <[p := text]> m)).

(** How a child process ends, as [subprocess.run(check=True, timeout=...)]
    reports it. *)
Inductive completion :=
  | Exited0
  | CalledProcessError
  | TimeoutExpired
  | FileNotFoundError.

End host.

(** ** [deploy_tool/core/utils.py] *)

Module utils.
Import host.

Definition print_success (message : string) : py world unit := echo SUCCESS message.
Definition print_error (message : string) : py world unit := echo ERROR message.
Definition print_info (message : string) : py world unit := echo INFO message.
Definition print_warning (message : string) : py world unit := echo WARNING message.
Definition print_step (step message : string) : py world unit := echo (STEP step) message.

(** Values [json.load] produces. *)
Inductive json :=
  | JNull
  | JBool (b : bool)
  | JNumber (n : Z)
  | JString (s : string)
  | JArray (items : list json)
  | JObject (members : gmap string json).

Section externals.
(** [subprocess.run(command, cwd, timeout)]: how the child ends and the
    files it leaves. *)
Variable subprocess_run :
  list string → string → nat → gmap string string →
  completion * gmap string string.
(** [json.load]: the value, or the text of the [JSONDecodeError] *)
Variable json_load : string → json + string.

(** [run_command(command, cwd=cwd, timeout=timeout)] on a POSIX host
    ([os.name != 'nt']), with [capture_output] left at its default
    [False], as every call of the build manager has it: the child's
    output is not captured, so [e.stderr] and [e.stdout] are [None]. *)
Definition run_command (command : list string) (cwd : string) (timeout : nat)
    : py world unit :=
  print_info ("Running command: " +:+ join " " command) ;;
  (if bool_decide (cwd = "") then mret tt
   else print_info ("Working directory: " +:+ cwd)) ;;
  w ← get_state;
  let result := subprocess_run command cwd timeout (fs w) in
  modify (with_fs (λ _, result.2)) ;;
  match result.1 with
  | Exited0 => mret tt
  | TimeoutExpired =>
      raise ("Command timed out after " +:+ str_of_nat timeout
               +:+ " seconds: " +:+ join " " command)
  | CalledProcessError => raise ("Command failed: " +:+ join " " command)
  | FileNotFoundError =>
      raise ("Command not found: " +:+ default "" (head command)
               +:+ ". Please ensure it's installed and in PATH.")
  end.

Definition load_json_file (file_path : string) : py world json :=
  λ w, match fs w !! file_path with
       | None => (Raise ("File not found: " +:+ file_path), w)
       | Some text =>
           match json_load text with
           | inl value => (Return value, w)
           | inr e => (Raise ("Invalid JSON in " +:+ file_path +:+ ": " +:+ e), w)
           end
       end.

End externals.

(** [d.get(key, default)]: an [AttributeError] unless [d] is a dict. *)
Definition py_get {St} (d : json) (key : string) (fallback : json) : py St json :=
  match d with
  | JObject members => mret (default fallback (members !! key))
  | _ => raise "object has no attribute 'get'"
  end.

(** The operand of [**] in a dict display: a [TypeError] unless it is a
    mapping. *)
Definition unpack {St} (d : json) : py St (gmap string json) :=
  match d with
  | JObject members => mret members
  | _ => raise "argument after ** must be a mapping"
  end.

End utils.

(** ** The fragment of Python's [re] the build manager uses

    A backtracking matcher: [run r s] lists, in the order Python's engine
    tries them, the ways [r] can match at the start of [s], each as the text
    consumed, the text left, and the groups captured.  Alternation tries its
    left branch first and the quantifiers are greedy, so the head of the
    list is the match [re] reports at that position.  Text is a string of
    code points below 256. *)

Module re.

Inductive regex :=
  | Lit (text : string)
  | Class (p : ascii → bool)       (** one character of a class *)
  | Star (p : ascii → bool)        (** a class, starred *)
  | Opt (c : ascii)                (** [c?] *)
  | Alt (r1 r2 : regex)
  | Seq (r1 r2 : regex)
  | Group (n : nat) (r : regex).   (** the [n]-th capturing group *)

Definition captures := list (nat * string).

Record attempt := {
  consumed : string;
  rest : string;
  groups : captures
}.

Definition extend (c : ascii) (a : attempt) : attempt :=
  {| consumed := String c (consumed a); rest := rest a; groups := groups a |}.

(** Longest run first. *)
Fixpoint run_star (p : ascii → bool) (s : string) : list attempt :=
  match s with
  | EmptyString => [{| consumed := ""; rest := ""; groups := [] |}]
  | String c s' =>
      (if p c then extend c <$> run_star p s' else [])
      ++ [{| consumed := ""; rest := s; groups := [] |}]
  end.

Fixpoint run (r : regex) (s : string) : list attempt :=
  match r with
  | Lit text =>
      if String.prefix text s
      then [{| consumed := text; rest := skip (String.length text) s; groups := [] |}]
      else []
  | Class p =>
      match s with
      | String c s' =>
          if p c then [{| consumed := String c ""; rest := s'; groups := [] |}]
          else []
      | EmptyString => []
      end
  | Star p => run_star p s
  | Opt c =>
      match s with
      | String a s' =>
          (if Ascii.eqb a c
           then [{| consumed := String c ""; rest := s'; groups := [] |}]
           else [])
          ++ [{| consumed := ""; rest := s; groups := [] |}]
      | EmptyString => [{| consumed := ""; rest := ""; groups := [] |}]
      end
  | Alt r1 r2 => run r1 s ++ run r2 s
  | Seq r1 r2 =>
      a1 ← run r1 s;
      (λ a2, {| consumed := consumed a1 +:+ consumed a2; rest := rest a2;
                groups := groups a1 ++ groups a2 |}) <$> run r2 (rest a1)
  | Group n r =>
      (λ a, {| consumed := consumed a; rest := rest a;
               groups := (n, consumed a) :: groups a |}) <$> run r s
  end.

(** Replacement templates: literal text and [\n] references. *)
Inductive piece := Text (text : string) | Ref (n : nat).

Fixpoint group (gs : captures) (n : nat) : string :=
  match gs with
  | [] => ""
  | (k, text) :: gs' => if Nat.eqb k n then text else group gs' n
  end.

Fixpoint expand (template : list piece) (gs : captures) : string :=
  match template with
  | [] => ""
  | Text text :: template' => text +:+ expand template' gs
  | Ref n :: template' => group gs n +:+ expand template' gs
  end.

(** [re.sub(pattern, repl, s)] for a pattern that cannot match the empty
    string: scan left to right; at a position where the pattern matches,
    emit the expanded template and resume after the match ([pending]
    counts the characters of the match still to be passed over); elsewhere
    copy the character. *)
Fixpoint sub_from (pattern : regex) (repl : list piece) (s : string)
    (pending : nat) : string :=
  match s with
  | EmptyString => ""
  | String c s' =>
      match pending with
      | S pending' => sub_from pattern repl s' pending'
      | 0 =>
          match run pattern s with
          | {| consumed := String _ matched; groups := gs |} :: _ =>
              expand repl gs +:+ sub_from pattern repl s' (String.length matched)
          | _ => String c (sub_from pattern repl s' 0)
          end
      end
  end.

Definition sub (pattern : regex) (repl : list piece) (s : string) : string :=
  sub_from pattern repl s 0.

(** Character classes *)
Definition dquote : ascii := "034"%char.

Definition other_than (c : ascii) : ascii → bool := λ a, negb (Ascii.eqb a c).

(** [\s] on code points below 256 *)
Definition whitespace : ascii → bool :=
  λ a, bool_decide (nat_of_ascii a ∈ [9; 10; 11; 12; 13; 28; 29; 30; 31; 32; 133; 160]).

Definition seq_of (rs : list regex) : regex := foldr Seq (Lit "") rs.

End re.

(** ** [deploy_tool/core/build_manager.py] *)

Module build_manager.
Import host utils re PyPath.

(** [key in d] *)
Definition py_contains (key : string) (d : gmap string json) : bool :=
  bool_decide (is_Some (d !! key)).

(** The patterns and templates of [_fix_single_html_file].  [q] is the
    double quote, written Q in the comments below, where a starred class
    is also written with the word STAR. *)
Definition q : string := String dquote "".

(** Group [n]: a slash followed by [^Q] STAR *)
Definition absolute_path (n : nat) : regex :=
  Group n (Seq (Lit "/") (Star (other_than dquote))).

(** [<tag], group 1: [^>] STAR, one [\s], [attr=Q], group 2 as above, [Q];
    replaced by [<tag\1 attr=Q.\2Q] *)
Definition tag_attribute (tag attr : string) : regex :=
  seq_of [Lit ("<" +:+ tag); Group 1 (Star (other_than ">"%char));
          Class whitespace; Lit (attr +:+ "=" +:+ q); absolute_path 2; Lit q].

Definition tag_attribute_repl (tag attr : string) : list piece :=
  [Text ("<" +:+ tag); Ref 1; Text (" " +:+ attr +:+ "=" +:+ q +:+ "."); Ref 2;
   Text q].

(** Group 1: [src|href|action], [=Q], group 2 as above, [Q]; replaced by
    [\1=Q.\2Q] *)
Definition any_attribute : regex :=
  seq_of [Group 1 (Alt (Lit "src") (Alt (Lit "href") (Lit "action")));
          Lit ("=" +:+ q); absolute_path 2; Lit q].

Definition any_attribute_repl : list piece :=
  [Ref 1; Text ("=" +:+ q +:+ "."); Ref 2; Text q].

(** [<base], [^>] STAR, an optional slash, [>]; replaced by the empty
    string *)
Definition base_tag : regex :=
  seq_of [Lit "<base"; Star (other_than ">"%char); Opt "/"%char; Lit ">"].

(** [url(/], group 1: any characters but a closing parenthesis, STAR,
    then the closing parenthesis; replaced by [url(./\1)] *)
Definition css_url : regex :=
  seq_of [Lit "url(/"; Group 1 (Star (other_than ")"%char)); Lit ")"].

Definition css_url_repl : list piece := [Text "url(./"; Ref 1; Text ")"].

(** The rewriting [_fix_single_html_file] applies to the text it read. *)
Definition fix_html_content (content : string) : string :=
  let content := sub (tag_attribute "script" "src") (tag_attribute_repl "script" "src") content in
  let content := sub (tag_attribute "link" "href") (tag_attribute_repl "link" "href") content in
  let content := sub (tag_attribute "img" "src") (tag_attribute_repl "img" "src") content in
  let content := sub any_attribute any_attribute_repl content in
  let content := sub base_tag [] content in
  let content := sub css_url css_url_repl content in
  content.

Definition _fix_single_html_file (html_file : string) : py world unit :=
  try_except
    (content ← read_text html_file;
     let original_content := content in
     let content := fix_html_content content in
     if bool_decide (content ≠ original_content)
     then write_text html_file content ;;
          print_info ("Fixed paths in " +:+ name html_file)
     else mret tt)
    (λ e, print_warning ("Could not fix " +:+ name html_file +:+ ": " +:+ e)).

Section methods.
Variable subprocess_run :
  list string → string → nat → gmap string string →
  completion * gmap string string.
Variable json_load : string → json + string.

Definition _detect_framework_and_build_dir (project_dir : string)
    : py world (string * string) :=
  try_except
    (package_json ← load_json_file json_load (joinpath project_dir "package.json");
     runtime ← py_get package_json "dependencies" (JObject ∅);
     runtime ← unpack runtime;
     development ← py_get package_json "devDependencies" (JObject ∅);
     development ← unpack development;
     let dependencies : gmap string json := development ∪ runtime in
     if py_contains "vite" dependencies then mret ("vite", "dist")
     else if py_contains "next" dependencies then mret ("next", ".next")
     else if py_contains "@angular/core" dependencies then mret ("angular", "dist")
     else if py_contains "vue" dependencies then mret ("vue", "dist")
     else if py_contains "react-scripts" dependencies then mret ("react", "build")
     else if py_contains "react" dependencies then mret ("react", "build")
     else mret ("node", "dist"))
    (λ _, mret ("react", "build")).

Definition run (command : list string) (project_dir : string) : py world unit :=
  run_command subprocess_run command project_dir 600.

(** The four [try] blocks of [_build_with_fallbacks]. *)
Definition standard_build (project_dir : string) : py world unit :=
  try_except
    (print_info "Attempting standard build..." ;;
     run ["npm"; "run"; "build"] project_dir ;;
     set_build_successful true ;;
     print_success "Standard build completed")
    (λ e, print_warning ("Standard build failed: " +:+ e)).

Definition framework_specific_build (project_dir framework : string)
    : py world unit :=
  try_except
    (print_info "Attempting framework-specific build..." ;;
     (if String.eqb framework "vite"
      then run ["npx"; "vite"; "build"] project_dir
      else if String.eqb framework "react"
      then run ["npx"; "react-scripts"; "build"] project_dir
      else if String.eqb framework "next"
      then run ["npx"; "next"; "build"] project_dir
      else if String.eqb framework "angular"
      then run ["npx"; "ng"; "build"; "--base-href"; "./"] project_dir
      else run ["npm"; "run"; "build"] project_dir) ;;
     set_build_successful true ;;
     print_success "Framework-specific build completed")
    (λ e, print_warning ("Framework-specific build failed: " +:+ e)).

Definition forced_base_build (project_dir : string) : py world unit :=
  try_except
    (print_info "Attempting Vite build with forced base path..." ;;
     run ["npx"; "vite"; "build"; "--base"; "./"] project_dir ;;
     set_build_successful true ;;
     print_success "Forced base path build completed")
    (λ e, print_warning ("Forced build failed: " +:+ e)).

Definition build_without_config (project_dir : string) : py world unit :=
  try_except
    (print_info "Attempting build without configuration..." ;;
     let vite_config := joinpath project_dir "vite.config.js" in
     config_exists ← path_exists vite_config;
     backup_config ←
       (if config_exists : bool
        then
          let backup_config := joinpath project_dir "vite.config.js.backup" in
          rename vite_config backup_config ;;
          print_info "Temporarily removed Vite config" ;;
          mret (Some backup_config)
        else mret None);
     run ["npx"; "vite"; "build"; "--base"; "./"] project_dir ;;
     set_build_successful true ;;
     print_success "Build without config completed" ;;
     match backup_config with
     | Some backup_config =>
         backup_exists ← path_exists backup_config;
         if backup_exists : bool then rename backup_config vite_config
         else mret tt
     | None => mret tt
     end)
    (λ e,
       print_warning ("Build without config failed: " +:+ e) ;;
       let backup_config := joinpath project_dir "vite.config.js.backup" in
       backup_exists ← path_exists backup_config;
       if backup_exists : bool
       then rename backup_config (joinpath project_dir "vite.config.js")
       else mret tt).

(** [if not build_successful (and framework == 'vite'): ...] *)
Definition unless_built (applies : bool) (block : py world unit)
    : py world unit :=
  built ← get_build_successful;
  if negb built && applies then block else mret tt.

Definition _build_with_fallbacks (project_dir framework : string)
    : py world unit :=
  set_build_successful false ;;
  unless_built true (standard_build project_dir) ;;
  unless_built true (framework_specific_build project_dir framework) ;;
  unless_built (String.eqb framework "vite") (forced_base_build project_dir) ;;
  unless_built (String.eqb framework "vite") (build_without_config project_dir) ;;
  built ← get_build_successful;
  if negb built then raise "All build strategies failed" else mret tt.

End methods.

End build_manager.


(** ** Vocabulary of the properties of the release store *)

Module release_store_spec.
Import S3 aws_manager.

(** [ok_run c m a m']: started on objects [m] with an empty fault schedule,
    [c] returns [a] and leaves objects [m'] (and the schedule empty). *)
Definition ok_run {A} (c : py bucket A) (m : gmap string object) (a : A)
    (m' : gmap string object) : Prop :=
  ∀ st, objects st = m → faults st = [] →
    ∃ t, c st = (Return a, {| objects := m'; faults := []; trace := t |}).

(** What [_clear_prefix] leaves: the objects outside the prefix. *)
Definition cleared (Prefix : string) (m : gmap string object)
    : gmap string object :=
  foldr delete m (keys_with_prefix Prefix m).

(** What one iteration of the copy loop does to the objects. *)
Definition copy_step (source_prefix dest_prefix : string)
    (m : gmap string object) (source_key : string) : gmap string object :=
  match m !! source_key with
  | Some o =>
      <[dest_prefix +:+ skip (String.length source_prefix) source_key := o]> m
  | None => m
  end.

(** The version named by a [CommonPrefixes] entry, and one iteration of the
    inner loop of [list_versions]. *)
Definition version_of_prefix (builds_prefix p : string) : string :=
  rstrip slash (skip (String.length builds_prefix) p).

Definition add_version (builds_prefix : string) (versions : list string)
    (p : string) : list string :=
  let version := version_of_prefix builds_prefix p in
  if bool_decide (version = "") then versions else versions ++ [version].

(** The versions a store holds for a project, as [list_versions] reports
    them when no request fails. *)
Definition stored_versions (project : string) (m : gmap string object)
    : list string :=
  let builds_prefix := project +:+ "/builds/" in
  sorted_reverse
    (filter (λ v, v ≠ "")
       (version_of_prefix builds_prefix
          <$> common_prefixes_of (entries_with_prefix builds_prefix slash m))).

(** The sub-tree of a version. *)
Definition version_prefix (project version : string) : string :=
  project +:+ "/builds/" +:+ version +:+ "/".


(** Requests and their fate.  [fail_stop Q c]: whatever the fault schedule,
    [c] sends only requests in [Q]; it returns only if every one of them
    was served, and it raises exactly the error of a rejected request,
    which is then the last it sent. *)
Definition served (entry : api_call * option string) : Prop := entry.2 = None.

Definition fail_stop {A} (Q : api_call → Prop) (c : py bucket A) : Prop :=
  ∀ st r st', c st = (r, st') →
    ∃ new, trace st' = trace st ++ new
           ∧ Forall (λ entry, Q entry.1) new
           ∧ match r with
             | Return _ => Forall served new
             | Raise e =>
                 ∃ pre call, new = pre ++ [(call, Some e)] ∧ Forall served pre
             end.

(** [calls_within Q c]: [c] sends only requests in [Q]. *)
Definition calls_within {A} (Q : api_call → Prop) (c : py bucket A) : Prop :=
  ∀ st r st', c st = (r, st') →
    ∃ new, trace st' = trace st ++ new ∧ Forall (λ entry, Q entry.1) new.

(** The requests of the two phases of an activation. *)
Definition clear_phase (current_prefix : string) (c : api_call) : Prop :=
  match c with
  | ListObjectsV2 p => p = current_prefix
  | DeleteObjects _ => True
  | _ => False
  end.

Definition copy_phase (source_prefix : string) (c : api_call) : Prop :=
  match c with
  | ListObjectsV2 p => p = source_prefix
  | CopyObject _ _ => True
  | _ => False
  end.


End release_store_spec.

(** ** Vocabulary of the properties of the build orchestrator *)

Module build_spec.
Import host utils re build_manager.

(** The priority table of the framework detector, as the specification
    gives it, and its reading: the pair of the first key that is declared. *)
Definition priority : list (string * (string * string)) :=
  [ ("vite", ("vite", "dist"));
    ("next", ("next", ".next"));
    ("@angular/core", ("angular", "dist"));
    ("vue", ("vue", "dist"));
    ("react-scripts", ("react", "build"));
    ("react", ("react", "build")) ].

Fixpoint first_match (table : list (string * (string * string)))
    (declared : string → bool) (fallback : string * string) : string * string :=
  match table with
  | [] => fallback
  | (key, detected) :: table' =>
      if declared key then detected else first_match table' declared fallback
  end.

(** A dependency group of a manifest: absent counts as empty; anything but
    a mapping is malformed. *)
Definition dependency_group (members : gmap string json) (group : string)
    : option (gmap string json) :=
  match members !! group with
  | None => Some ∅
  | Some (JObject d) => Some d
  | Some _ => None
  end.

(** The package names of the merged runtime and development groups. *)
Definition merged_dependencies (manifest : json) : option (gset string) :=
  match manifest with
  | JObject members =>
      runtime ← dependency_group members "dependencies";
      development ← dependency_group members "devDependencies";
      Some (dom runtime ∪ dom development)
  | _ => None
  end.




(** [occurs t s]: [t] is a substring of [s]. *)
Fixpoint occurs (t s : string) : bool :=
  String.prefix t s
  || match s with
     | EmptyString => false
     | String _ s' => occurs t s'
     end.

(** The root-absolute forms the patterns of [fix_html_content] start from. *)
Definition triggers : list string :=
  ["src=" +:+ q +:+ "/"; "href=" +:+ q +:+ "/"; "action=" +:+ q +:+ "/";
   "<base"; "url(/"].

Definition root_relative (content : string) : bool :=
  forallb (λ t, negb (occurs t content)) triggers.

(** The texts a pattern can consume, captures aside. *)
Fixpoint lang (r : regex) (text : string) : Prop :=
  match r with
  | Lit l => text = l
  | Class p => ∃ c, text = String c "" ∧ p c = true
  | Star p => True
  | Opt c => text = "" ∨ text = String c ""
  | Alt r1 r2 => lang r1 text ∨ lang r2 text
  | Seq r1 r2 => ∃ t1 t2, text = t1 +:+ t2 ∧ lang r1 t1 ∧ lang r2 t2
  | Group _ r => lang r text
  end.

End build_spec.


(** ** [deploy_tool/core/build_manager.py]: locating, preparing and
    installing

    The methods of [BuildManager] that run before and after the build
    ladder. *)

Module build_steps.
Import host utils build_manager PyPath.

(** [Path.parent] of a path with the separator [/]: the path without its
    final component. *)
Fixpoint before_last_slash (p : string) : option string :=
  match p with
  | EmptyString => None
  | String a p' =>
      match before_last_slash p' with
      | Some r => Some (String a r)
      | None => if Ascii.eqb a slash then Some "" else None
      end
  end.

Definition parent (p : string) : string :=
  match before_last_slash p with
  | Some EmptyString => "/"
  | Some r => r
  | None => "."
  end.

(** [needle in text] on strings *)
Definition py_in_str (needle text : string) : bool := build_spec.occurs needle text.

(** [needle in value] for a value of a JSON document: substring of a
    string, element of a list, key of a mapping; a [TypeError] on anything
    else. *)
Definition py_in_json {St} (needle : string) (value : json) : py St bool :=
  match value with
  | JString text => mret (py_in_str needle text)
  | JArray items =>
      mret (existsb (λ item, match item with
                             | JString text => String.eqb text needle
                             | _ => false
                             end) items)
  | JObject members => mret (py_contains needle members)
  | JNull => raise "argument of type 'NoneType' is not iterable"
  | JBool _ => raise "argument of type 'bool' is not iterable"
  | JNumber _ => raise "argument of type 'int' is not iterable"
  end.

Definition nl : string := String "010"%char "".

(** The text whose lines are [l], each ended by a newline. *)
Definition unlines (l : list string) : string :=
  foldr (λ line text, line +:+ nl +:+ text) "" l.

(** [_find_package_json].  [found] is what [repo_dir.rglob('package.json')]
    yields, in its order, each manifest as its path relative to
    [repo_dir]; [str(package_file)] is that path under [repo_dir], and the
    directory of the manifest relative to [repo_dir] is the parent of the
    relative path. *)
Fixpoint search_package_json (repo_dir : string) (found : list string)
    : py world (string * string) :=
  match found with
  | [] => raise "No package.json found in repository"
  | package_file :: found' =>
      if py_in_str "node_modules" (joinpath repo_dir package_file)
      then search_package_json repo_dir found'
      else
        let project_dir := parent (joinpath repo_dir package_file) in
        let relative_path := parent package_file in
        print_info ("Found package.json in: " +:+ relative_path) ;;
        mret (project_dir, replace_char backslash slash relative_path)
  end.

Definition _find_package_json (repo_dir : string) (found : list string)
    : py world (string * string) :=
  root ← path_exists (joinpath repo_dir "package.json");
  if root : bool then mret (repo_dir, ".")
  else search_package_json repo_dir found.

(** The build directory after the build: [html_files] is what
    [build_dir.rglob('*.html')] yields, in its order. *)
Definition _fix_all_asset_paths (html_files : list string) : py world unit :=
  try_except
    (for_each html_files _fix_single_html_file ;;
     if bool_decide (html_files ≠ [])
     then print_success ("Fixed asset paths in "
                           +:+ str_of_nat (length html_files) +:+ " HTML files")
     else mret tt)
    (λ e, print_warning ("Could not fix asset paths: " +:+ e)).

(** [_create_minimal_vite_config] and [_create_optimized_vite_config] *)
Definition minimal_config : string :=
  unlines [ "import { defineConfig } from 'vite'";
            "";
            "export default defineConfig({";
            "  base: './',";
            "  build: {";
            "    outDir: 'dist',";
            "    assetsDir: 'assets',";
            "    sourcemap: false";
            "  }";
            "})" ].

Definition _create_minimal_vite_config (project_dir : string) : py world unit :=
  try_except
    (let vite_config_path := joinpath project_dir "vite.config.js" in
     write_text vite_config_path minimal_config ;;
     print_info "Created minimal Vite configuration")
    (λ e, print_warning ("Could not create minimal config: " +:+ e)).

Definition config_content (imports : list string) (plugins_array : string)
    : string :=
  join nl imports +:+ nl
  +:+ unlines [ "";
                "export default defineConfig({";
                "  base: './',";
                "  plugins: " +:+ plugins_array +:+ ",";
                "  build: {";
                "    outDir: 'dist',";
                "    assetsDir: 'assets',";
                "    sourcemap: false,";
                "    rollupOptions: {";
                "      output: {";
                "        manualChunks: undefined";
                "      }";
                "    }";
                "  },";
                "  server: {";
                "    fs: {";
                "      strict: false";
                "    }";
                "  }";
                "})" ].

(** The two lists are carried as one pair [(imports, plugins)]. *)
Definition _create_optimized_vite_config (project_dir : string)
    (dependencies : gmap string json) : py world unit :=
  try_except
    (let vite_config_path := joinpath project_dir "vite.config.js" in
     let lists := (["import { defineConfig } from 'vite'"], []) in
     lists ←
       (if py_contains "react" dependencies
        then
          if py_contains "@vitejs/plugin-react" dependencies
          then mret (lists.1 ++ ["import react from '@vitejs/plugin-react'"],
                     lists.2 ++ ["react()"])
          else print_warning "React detected but @vitejs/plugin-react not available" ;;
               mret lists
        else mret lists);
     let lists :=
       if py_contains "vue" dependencies
       then
         if py_contains "@vitejs/plugin-vue" dependencies
         then (lists.1 ++ ["import vue from '@vitejs/plugin-vue'"],
               lists.2 ++ ["vue()"])
         else lists
       else lists in
     let imports : list string := lists.1 in
     let plugins : list string := lists.2 in
     let plugins_array :=
       if bool_decide (plugins ≠ []) then "[" +:+ join ", " plugins +:+ "]"
       else "[]" in
     write_text vite_config_path (config_content imports plugins_array) ;;
     print_success "Created optimized Vite configuration")
    (λ e,
       print_warning ("Could not create Vite config: " +:+ e) ;;
       _create_minimal_vite_config project_dir).

Section methods.
Variable subprocess_run :
  list string → string → nat → gmap string string →
  completion * gmap string string.
Variable json_load : string → json + string.
(** [shutil.which]: the path of the executable, when there is one *)
Variable which : string → option string.

(** [utils.check_command_exists] on a POSIX host *)
Definition check_command_exists (command : string) : py world bool :=
  match which command with
  | Some result =>
      print_info ("Found " +:+ command +:+ " at: " +:+ result) ;; mret true
  | None => print_warning (command +:+ " not found in PATH") ;; mret false
  end.

Definition detect_project_directory (project_dir : string)
    (found : list string) : py world (string * string) :=
  try_except
    (located ← _find_package_json project_dir found;
     let actual_project_dir := located.1 in
     detected ← _detect_framework_and_build_dir json_load actual_project_dir;
     let framework := detected.1 in
     mret (framework, actual_project_dir))
    (λ _, mret ("react", project_dir)).

Definition _prepare_vite_project (project_dir : string) : py world unit :=
  try_except
    (print_info "Preparing Vite project..." ;;
     let package_json_path := joinpath project_dir "package.json" in
     package_json ← load_json_file json_load package_json_path;
     runtime ← py_get package_json "dependencies" (JObject ∅);
     runtime ← unpack runtime;
     development ← py_get package_json "devDependencies" (JObject ∅);
     development ← unpack development;
     let dependencies : gmap string json := development ∪ runtime in
     let missing_deps : list string := [] in
     let missing_deps :=
       if negb (py_contains "vite" dependencies)
       then missing_deps ++ ["vite@latest"] else missing_deps in
     let missing_deps :=
       if py_contains "react" dependencies
          && negb (py_contains "@vitejs/plugin-react" dependencies)
       then missing_deps ++ ["@vitejs/plugin-react@latest"] else missing_deps in
     let missing_deps :=
       if py_contains "vue" dependencies
          && negb (py_contains "@vitejs/plugin-vue" dependencies)
       then missing_deps ++ ["@vitejs/plugin-vue@latest"] else missing_deps in
     scripts ← py_get package_json "scripts" (JObject ∅);
     build_script ← py_get scripts "build" (JString "");
     typed ← py_in_json "typescript" build_script;
     let missing_deps :=
       if typed && negb (py_contains "typescript" dependencies)
       then missing_deps ++ ["typescript@latest"; "@types/node@latest"]
       else missing_deps in
     (if bool_decide (missing_deps ≠ [])
      then
        print_info ("Installing missing dependencies: "
                      +:+ join ", " missing_deps) ;;
        run_command subprocess_run (["npm"; "install"; "--save-dev"] ++ missing_deps)
          project_dir 180 ;;
        print_success "Missing dependencies installed"
      else mret tt) ;;
     _create_optimized_vite_config project_dir dependencies)
    (λ e, print_warning ("Vite preparation failed: " +:+ e)).

Definition _prepare_react_project (project_dir : string) : py world unit :=
  try_except
    (print_info "Preparing React project..." ;;
     let package_json_path := joinpath project_dir "package.json" in
     package_json ← load_json_file json_load package_json_path;
     runtime ← py_get package_json "dependencies" (JObject ∅);
     runtime ← unpack runtime;
     development ← py_get package_json "devDependencies" (JObject ∅);
     development ← unpack development;
     let dependencies : gmap string json := development ∪ runtime in
     let missing_deps : list string := [] in
     let missing_deps :=
       if negb (py_contains "react" dependencies)
       then missing_deps ++ ["react@latest"; "react-dom@latest"]
       else missing_deps in
     let missing_deps :=
       if negb (py_contains "react-scripts" dependencies)
          && negb (py_contains "vite" dependencies)
       then missing_deps ++ ["react-scripts@latest"] else missing_deps in
     if bool_decide (missing_deps ≠ [])
     then
       print_info ("Installing missing React dependencies: "
                     +:+ join ", " missing_deps) ;;
       run_command subprocess_run (["npm"; "install"] ++ missing_deps)
         project_dir 180 ;;
       print_success "Missing React dependencies installed"
     else mret tt)
    (λ e, print_warning ("React preparation failed: " +:+ e)).

(** One strategy of [_install_dependencies_robust]: its [try] block
    returns from the method on success, which the result [true] stands
    for. *)
Definition install_with (announce : string) (command : list string)
    (installed label : string) (project_dir : string) : py world bool :=
  try_except
    (print_info announce ;;
     run_command subprocess_run command project_dir 300 ;;
     print_success installed ;;
     mret true)
    (λ e, print_warning (label +:+ " failed: " +:+ e) ;; mret false).

Definition _install_dependencies_robust (project_dir : string)
    : py world unit :=
  try_except
    (try_except
       (run_command subprocess_run ["npm"; "cache"; "clean"; "--force"]
          project_dir 60)
       (λ _, mret tt) ;;
     returned ← install_with "Installing dependencies with npm ci..."
                  ["npm"; "ci"] "Dependencies installed with npm ci"
                  "npm ci" project_dir;
     if returned : bool then mret tt else
     returned ← install_with "Installing dependencies with npm install..."
                  ["npm"; "install"] "Dependencies installed with npm install"
                  "npm install" project_dir;
     if returned : bool then mret tt else
     returned ← install_with "Installing dependencies with legacy peer deps..."
                  ["npm"; "install"; "--legacy-peer-deps"]
                  "Dependencies installed with legacy peer deps"
                  "npm install --legacy-peer-deps" project_dir;
     if returned : bool then mret tt else
     yarn ← check_command_exists "yarn";
     returned ←
       (if yarn : bool
        then install_with "Installing dependencies with yarn..."
               ["yarn"; "install"] "Dependencies installed with yarn"
               "yarn install" project_dir
        else mret false);
     if returned : bool then mret tt
     else raise "All dependency installation methods failed")
    (λ e, raise ("Failed to install dependencies: " +:+ e)).

End methods.

End build_steps.


(** ** Concrete stores used in examples *)

Module examples.
Import S3 aws_manager.

(** [deploy_tool/config/constants.py] *)
Definition DEFAULT_AWS_PROFILE : string := "Uzaif".
Definition DEFAULT_AWS_REGION : string := "ap-south-1".
Definition INFRASTRUCTURE_BUCKET : string := "minfy-uzaif-capstone-deployments".

Definition tool : AWSManager :=
  {| profile := DEFAULT_AWS_PROFILE; region := DEFAULT_AWS_REGION;
     bucket_name := INFRASTRUCTURE_BUCKET |}.

Definition html (text : string) : object :=
  {| body := text; ContentType := "text/html";
     CacheControl := "public, max-age=0, must-revalidate" |}.

Definition script (text : string) : object :=
  {| body := text; ContentType := "text/javascript";
     CacheControl := "public, max-age=31536000, immutable" |}.

(** Project [shop] with three uploaded versions, the second one live. *)
Definition shop : gmap string object :=
  {[ "shop/builds/v20250101-000000/index.html" := html "one";
     "shop/builds/v20250102-000000/index.html" := html "two";
     "shop/builds/v20250102-000000/old.js" := script "old";
     "shop/builds/v20250103-000000/index.html" := html "three";
     "shop/builds/v20250103-000000/assets/app.js" := script "app";
     "shop/current/index.html" := html "two";
     "shop/current/old.js" := script "old" ]}.

(** A store that rejects nothing, and one whose next request is rejected. *)
Definition quiet (m : gmap string object) : bucket :=
  {| objects := m; faults := []; trace := [] |}.

Definition rejecting_next (e : string) (m : gmap string object) : bucket :=
  {| objects := m; faults := [Some e]; trace := [] |}.

End examples.

(** ** Concrete hosts used in examples *)

Module build_examples.
Import host.

(** A host on which every child process ends the same way and touches no
    file. *)
Definition always (c : completion)
    : list string → string → nat → gmap string string →
      completion * gmap string string :=
  λ _ _ _ files, (c, files).

(** A vite project with a configuration file. *)
Definition vite_project : world :=
  {| fs := {[ "/work/app/package.json" := "{ ... }";
              "/work/app/vite.config.js" := "export default { base: './' }" ]};
     console := [];
     build_successful := false |}.

(** Markup as a bundler emits it, and markup with an attribute value that
    is never closed. *)
Definition q : string := build_manager.q.

Definition index_html : string :=
  "<head><base href=" +:+ q +:+ "/" +:+ q +:+ "><link rel=" +:+ q
    +:+ "stylesheet" +:+ q +:+ " href=" +:+ q +:+ "/assets/app.css" +:+ q
    +:+ "></head><body><script type=" +:+ q +:+ "module" +:+ q +:+ " src="
    +:+ q +:+ "/assets/app.js" +:+ q +:+ "></script><img src=" +:+ q
    +:+ "/logo.png" +:+ q +:+ "><p style=" +:+ q
    +:+ "background:url(/bg.png)" +:+ q +:+ "></p></body>".

Definition unclosed_attribute : string :=
  "<a href=" +:+ q +:+ "/x>y</a><a href=" +:+ q +:+ "/z" +:+ q +:+ ">z</a>".

End build_examples.


(** ** Vocabulary for runs under any fault schedule *)

Module release_store_frames.
Import S3.

(** [invariant I R c]: whatever the store answers, the objects [c] leaves
    are related by [I] to those it found, and a value it returns is in
    [R]. *)
Definition invariant {A} (I : relation (gmap string object)) (R : A → Prop)
    (c : py bucket A) : Prop :=
  ∀ st, I (objects st) (objects (c st).2) ∧ ∀ a, (c st).1 = Return a → R a.

(** Nothing is created or changed, and only keys under [Prefix] may go. *)
Definition only_deletes_under (Prefix : string) : relation (gmap string object) :=
  λ m m', ∀ k, (String.prefix Prefix k = false → m' !! k = m !! k)
               ∧ (∀ o, m' !! k = Some o → m !! k = Some o).

(** Keys outside [Prefix] are as they were. *)
Definition same_outside (Prefix : string) : relation (gmap string object) :=
  λ m m', ∀ k, String.prefix Prefix k = false → m' !! k = m !! k.

(** [reads m a E c]: started on objects [m], whatever the store answers,
    [c] leaves the objects as they are, and either returns [a] or raises
    an error in [E]. *)
Definition reads {A} (m : gmap string object) (a : A) (E : string → Prop)
    (c : py bucket A) : Prop :=
  ∀ st, objects st = m →
    objects (c st).2 = m
    ∧ ((c st).1 = Return a ∨ ∃ e, (c st).1 = Raise e ∧ E e).

(** The requests of an upload. *)
Definition upload_phase (c : api_call) : Prop :=
  match c with
  | UploadFile _ => True
  | _ => False
  end.

(** The key under which [deploy_version] stores a file of the artifact
    tree, the object it stores there, and the objects after the files of a
    list have been stored in turn. *)
Definition upload_key (project version : string) (file : string * string)
    : string :=
  replace_char backslash slash
    ((project +:+ "/builds/" +:+ version +:+ "/") +:+ file.1).

Definition upload_object (guess_type : string → option string)
    (file : string * string) : object :=
  {| body := file.2;
     ContentType := aws_manager._get_enhanced_content_type guess_type file.1;
     CacheControl := aws_manager._get_cache_control file.1 |}.

Definition uploaded (guess_type : string → option string)
    (project version : string) (m : gmap string object)
    (files : list (string * string)) : gmap string object :=
  foldl (λ m file,
           <[upload_key project version file := upload_object guess_type file]> m)
    m files.

End release_store_frames.

(** ** Vocabulary for the steps around the build *)

Module build_steps_spec.
Import host utils build_manager build_steps.

(** The success lines among console lines. *)
Definition successes (lines : list (level * string)) : list string :=
  omap (λ line, match line.1 with SUCCESS => Some line.2 | _ => None end) lines.

(** Console lines that end with the one success line they hold. *)
Definition ends_with_only_success (lines : list (level * string)) : Prop :=
  ∃ before message,
    lines = before ++ [(SUCCESS, message)] ∧ successes before = [].

(** A block of the build ladder, whatever its child process does: it ends
    normally; either it leaves the success flag as it found it and prints
    no success line, or it raises the flag and the last line it prints is
    its one success line. *)
Definition ladder_block (block : py world unit) : Prop :=
  ∀ w, ∃ w' new,
    block w = (Return tt, w')
    ∧ console w' = console w ++ new
    ∧ ((build_successful w' = build_successful w ∧ successes new = [])
       ∨ (build_successful w' = true ∧ ends_with_only_success new)).

(** The state of the ladder after some of its blocks, started at [w0]:
    the success flag is up exactly when a success line was printed, and
    that line is then the last one. *)
Definition ladder_state (w0 w : world) : Prop :=
  ∃ new,
    console w = console w0 ++ new
    ∧ ((build_successful w = false ∧ successes new = [])
       ∨ (build_successful w = true ∧ ends_with_only_success new)).

(** The packages [_prepare_react_project] installs for the declared ones. *)
Definition missing_react_packages (declared : gset string) : list string :=
  (if bool_decide ("react" ∈ declared) then []
   else ["react@latest"; "react-dom@latest"])
  ++ (if bool_decide ("react-scripts" ∈ declared ∨ "vite" ∈ declared) then []
      else ["react-scripts@latest"]).

(** The configuration [_create_optimized_vite_config] generates for the
    declared packages. *)
Definition plugin_declared (declared : gset string) (framework plugin : string)
    : bool :=
  bool_decide (framework ∈ declared) && bool_decide (plugin ∈ declared).

Definition optimized_config (declared : gset string) : string :=
  let react := plugin_declared declared "react" "@vitejs/plugin-react" in
  let vue := plugin_declared declared "vue" "@vitejs/plugin-vue" in
  config_content
    (["import { defineConfig } from 'vite'"]
     ++ (if react then ["import react from '@vitejs/plugin-react'"] else [])
     ++ (if vue then ["import vue from '@vitejs/plugin-vue'"] else []))
    (match react, vue with
     | true, true => "[react(), vue()]"
     | true, false => "[react()]"
     | false, true => "[vue()]"
     | false, false => "[]"
     end).

(** Whether the [build] script of a manifest mentions [needle], as the
    membership test of the code decides it; [None] when there is no
    telling: [scripts] is not a mapping, or [build] is not a value the
    test applies to. *)
Definition build_script_mentions (needle : string) (manifest : json)
    : option bool :=
  match manifest with
  | JObject members =>
      match default (JObject ∅) (members !! "scripts") with
      | JObject scripts =>
          match py_in_json (St := unit) needle
                  (default (JString "") (scripts !! "build")) tt with
          | (Return mentioned, _) => Some mentioned
          | (Raise _, _) => None
          end
      | _ => None
      end
  | _ => None
  end.

(** The packages [_prepare_vite_project] installs for the declared ones. *)
Definition missing_vite_packages (declared : gset string) (typed : bool)
    : list string :=
  (if bool_decide ("vite" ∈ declared) then [] else ["vite@latest"])
  ++ (if bool_decide ("react" ∈ declared)
         && negb (bool_decide ("@vitejs/plugin-react" ∈ declared))
      then ["@vitejs/plugin-react@latest"] else [])
  ++ (if bool_decide ("vue" ∈ declared)
         && negb (bool_decide ("@vitejs/plugin-vue" ∈ declared))
      then ["@vitejs/plugin-vue@latest"] else [])
  ++ (if typed && negb (bool_decide ("typescript" ∈ declared))
      then ["typescript@latest"; "@types/node@latest"] else []).

Section commands.
Variable subprocess_run :
  list string → string → nat → gmap string string →
  completion * gmap string string.

(** Commands run one after the other, each on the files the one before
    left, up to the first that exits with status 0: whether one did,
    and the files at the end. *)
Fixpoint run_until_success (commands : list (list string)) (cwd : string)
    (timeout : nat) (files : gmap string string)
    : bool * gmap string string :=
  match commands with
  | [] => (false, files)
  | command :: commands' =>
      let result := subprocess_run command cwd timeout files in
      match result.1 with
      | Exited0 => (true, result.2)
      | _ => run_until_success commands' cwd timeout result.2
      end
  end.

(** [tail] continues a first-success ladder over [commands]. *)
Definition continues_ladder (project_dir : string) (tail : py world unit)
    (commands : list (list string)) : Prop :=
  ∀ w,
    let ladder := run_until_success commands project_dir 300 (fs w) in
    ∃ w',
      tail w = (if ladder.1 then Return tt
                else Raise "All dependency installation methods failed", w')
      ∧ fs w' = ladder.2.

End commands.

Definition exited_0 (c : completion) : bool :=
  match c with Exited0 => true | _ => false end.

(** The commands [_install_dependencies_robust] tries. *)
Definition install_commands (yarn : bool) : list (list string) :=
  [["npm"; "ci"]; ["npm"; "install"]; ["npm"; "install"; "--legacy-peer-deps"]]
  ++ (if yarn then [["yarn"; "install"]] else []).

End build_steps_spec.


(** * Properties *)

Import S3 aws_manager release_store_spec.

(** ** Strings: prefixes and re-rooting *)

Section string_facts.
Implicit Types p r s k : string.

Lemma app_cons a p r : String a p +:+ r = String a (p +:+ r).
Proof. reflexivity. Qed.

Lemma app_empty_l r : "" +:+ r = r.
Proof. reflexivity. Qed.

Lemma app_assoc_str p r s : (p +:+ r) +:+ s = p +:+ (r +:+ s).
Proof. induction p as [|a p IH]; [done|]. by rewrite !app_cons, IH. Qed.

Lemma prefix_cons a b p k :
  String.prefix (String a p) (String b k) = bool_decide (a = b) && String.prefix p k.
Proof. simpl. destruct (ascii_dec a b); by case_bool_decide. Qed.

Lemma prefix_app p r : String.prefix p (p +:+ r) = true.
Proof.
  induction p as [|a p IH]; [by destruct r|].
  rewrite app_cons, prefix_cons, IH. by rewrite bool_decide_true.
Qed.

Lemma prefix_split p k :
  String.prefix p k = true → k = p +:+ skip (String.length p) k.
Proof.
  revert k. induction p as [|a p IH]; intros k; [done|].
  destruct k as [|b k]; [done|]. rewrite prefix_cons.
  intros [Hab Hp]%andb_true_iff. apply bool_decide_eq_true in Hab as ->.
  rewrite app_cons. simpl. by rewrite <-IH.
Qed.

Lemma prefix_app_cancel p r s :
  String.prefix (p +:+ r) (p +:+ s) = String.prefix r s.
Proof.
  induction p as [|a p IH]; [done|].
  by rewrite !app_cons, prefix_cons, IH, bool_decide_true.
Qed.

Lemma prefix_trans_app p r k :
  String.prefix (p +:+ r) k = true → String.prefix p k = true.
Proof.
  intros H. rewrite (prefix_split _ _ H), app_assoc_str. apply prefix_app.
Qed.

Lemma skip_app p r : skip (String.length p) (p +:+ r) = r.
Proof. induction p as [|a p IH]; [by destruct r|]. done. Qed.

(** The two sub-trees of a project never overlap. *)
Lemma builds_not_under_current project version r :
  String.prefix (project +:+ "/current/")
    ((project +:+ "/builds/" +:+ version +:+ "/") +:+ r) = false.
Proof. by rewrite app_assoc_str, prefix_app_cancel. Qed.

Lemma current_not_under_builds project version r :
  String.prefix (project +:+ "/builds/" +:+ version +:+ "/")
    ((project +:+ "/current/") +:+ r) = false.
Proof. by rewrite app_assoc_str, prefix_app_cancel. Qed.

End string_facts.

(** ** Lists: slices and pages *)

Section list_facts.
Context {A : Type}.
Implicit Types l : list A.

Lemma concat_slices l step n :
  concat ((λ i, slice l i (i + step)) <$> ((λ j, j * step) <$> seq 0 n))
  = take (n * step) l.
Proof.
  induction n as [|n IH]; [done|].
  rewrite seq_S, !fmap_app, concat_app, IH. simpl.
  rewrite app_nil_r. unfold slice.
  replace (n * step + step - n * step) with step by lia.
  rewrite take_take_drop. f_equal. lia.
Qed.

Lemma concat_range_slices l step :
  0 < step →
  concat ((λ i, slice l i (i + step)) <$> range_step (length l) step) = l.
Proof.
  intros Hstep. unfold range_step. rewrite concat_slices.
  apply take_ge.
  pose proof (Nat.div_mod (length l + step - 1) step ltac:(lia)) as Hdm.
  pose proof (Nat.mod_upper_bound (length l + step - 1) step ltac:(lia)).
  nia.
Qed.

Lemma concat_pages_of l : concat (S3.pages_of l) = l.
Proof.
  unfold S3.pages_of. destruct l as [|x l]; [done|].
  apply concat_range_slices. unfold S3.MaxKeys. lia.
Qed.

Lemma elem_of_concat x (ls : list (list A)) :
  x ∈ concat ls ↔ ∃ l, x ∈ l ∧ l ∈ ls.
Proof.
  induction ls as [|l0 ls IH]; simpl.
  - split; [intros H; inversion H | intros (l & _ & H); inversion H].
  - rewrite elem_of_app, IH. split.
    + intros [Hx | (l & Hx & Hl)].
      * exists l0. split; [done | by left].
      * exists l. split; [done | by right].
    + intros (l & Hx & Hl). inversion Hl; subst; [by left|].
      right. by exists l.
Qed.

Lemma foldl_concat {B} (f : B → A → B) (ls : list (list A)) (b : B) :
  foldl (λ acc l, foldl f acc l) b ls = foldl f b (concat ls).
Proof.
  revert b. induction ls as [|l ls IH]; intros b; [done|].
  simpl. by rewrite foldl_app, IH.
Qed.

Lemma StronglySorted_filter (R : relation A) (P : A → Prop)
    `{!∀ x, Decision (P x)} l :
  StronglySorted R l → StronglySorted R (filter P l).
Proof.
  induction 1 as [|x l Hl IH Hx]; [constructor|].
  rewrite filter_cons. case_decide; [|done].
  constructor; [done|]. apply Forall_forall. intros y [_ Hy]%list_elem_of_filter.
  by eapply Forall_forall in Hx.
Qed.

End list_facts.

(** ** The object store: listings *)

Section listing_facts.
Import S3.
Implicit Types m : gmap string object.

Lemma elem_of_sorted_keys m k : k ∈ sorted_keys m ↔ is_Some (m !! k).
Proof.
  unfold sorted_keys. rewrite merge_sort_Permutation, list_elem_of_fmap.
  split.
  - intros [[k' o] [-> Hin]]. apply elem_of_map_to_list in Hin. by exists o.
  - intros [o Ho]. exists (k, o). split; [done|]. by apply elem_of_map_to_list.
Qed.

Lemma NoDup_sorted_keys m : NoDup (sorted_keys m).
Proof.
  unfold sorted_keys. rewrite merge_sort_Permutation.
  apply NoDup_fst_map_to_list.
Qed.

Lemma elem_of_keys_with_prefix Prefix m k :
  k ∈ keys_with_prefix Prefix m ↔ String.prefix Prefix k = true ∧ is_Some (m !! k).
Proof.
  unfold keys_with_prefix.
  rewrite list_elem_of_filter, elem_of_sorted_keys, Is_true_true. done.
Qed.

Lemma NoDup_keys_with_prefix Prefix m : NoDup (keys_with_prefix Prefix m).
Proof. apply NoDup_filter, NoDup_sorted_keys. Qed.

Lemma StronglySorted_sorted_keys m : StronglySorted String.le (sorted_keys m).
Proof. apply StronglySorted_merge_sort; apply _. Qed.

(** A listing is determined by the objects under its prefix. *)
Lemma keys_with_prefix_ext Prefix m1 m2 :
  (∀ k, String.prefix Prefix k = true → is_Some (m1 !! k) ↔ is_Some (m2 !! k)) →
  keys_with_prefix Prefix m1 = keys_with_prefix Prefix m2.
Proof.
  intros Hext. apply (Sorted_unique String.le).
  - apply StronglySorted_Sorted, StronglySorted_filter, StronglySorted_sorted_keys.
  - apply StronglySorted_Sorted, StronglySorted_filter, StronglySorted_sorted_keys.
  - apply NoDup_Permutation; [apply NoDup_keys_with_prefix..|].
    intros k. rewrite !elem_of_keys_with_prefix.
    split; intros [Hp Hs]; (split; [done|]); by apply (Hext k Hp).
Qed.

End listing_facts.

(** ** Runs in which the service rejects nothing *)

Section quiet_runs.
Import S3.
Implicit Types m : gmap string object.

Lemma ok_ret {A} (a : A) m : ok_run (mret a) m a m.
Proof. intros [o f t] ? ?; simplify_eq/=. by eexists. Qed.

Lemma ok_bind {A B} (c : py bucket A) (k : A → py bucket B) m a m1 b m2 :
  ok_run c m a m1 → ok_run (k a) m1 b m2 → ok_run (c ≫= k) m b m2.
Proof.
  intros Hc Hk st Hm Hf. destruct (Hc st Hm Hf) as [t Ht].
  unfold mbind, py_bind. rewrite Ht. by apply Hk.
Qed.

Lemma ok_try {A} (c : py bucket A) h m a m' :
  ok_run c m a m' → ok_run (try_except c h) m a m'.
Proof.
  intros Hc st Hm Hf. destruct (Hc st Hm Hf) as [t Ht].
  unfold try_except. rewrite Ht. by eexists.
Qed.

Lemma ok_api {A} c (serve : gmap string object → outcome (A * gmap string object))
    m a m' :
  serve m = Return (a, m') → ok_run (api c serve) m a m'.
Proof.
  intros Hs [o f t] ? ?; simplify_eq/=. unfold api; simpl. rewrite Hs.
  by eexists.
Qed.

Lemma ok_paginate Prefix m :
  ok_run (paginate Prefix) m (pages_of (keys_with_prefix Prefix m)) m.
Proof. intros [o f t] ? ?; simplify_eq/=. by eexists. Qed.

Lemma ok_paginate_delimited Prefix d m :
  ok_run (paginate_delimited Prefix d) m
    (pages_of (entries_with_prefix Prefix d m)) m.
Proof. intros [o f t] ? ?; simplify_eq/=. by eexists. Qed.

Lemma ok_fetch {A} Prefix (page : A) m : ok_run (fetch Prefix page) m page m.
Proof. by apply ok_api. Qed.

(** A loop whose body is described by [fv] on the accumulator and [fm] on
    the objects, under an invariant [P] of the objects. *)
Lemma ok_for_fold {A B} (body : B → A → py bucket B) (fv : B → A → B)
    (fm : gmap string object → A → gmap string object)
    (P : gmap string object → Prop) (l : list A) :
  (∀ x acc m, x ∈ l → P m →
     ok_run (body acc x) m (fv acc x) (fm m x) ∧ P (fm m x)) →
  ∀ acc m, P m →
    ok_run (for_fold l acc body) m (foldl fv acc l) (foldl fm m l)
    ∧ P (foldl fm m l).
Proof.
  induction l as [|x l IH]; intros Hbody acc m HP.
  - split; [apply ok_ret | done].
  - destruct (Hbody x acc m) as [Hx HPx]; [by left | done |].
    destruct (IH (λ y acc' m' Hy, Hbody y acc' m' (list_elem_of_further _ _ _ Hy))
                (fv acc x) (fm m x) HPx) as [Hl HPl].
    split; [|done]. simpl. by eapply ok_bind.
Qed.

End quiet_runs.

(** ** Clearing and copying a prefix *)

Section clear_and_copy.
Import S3 aws_manager.
Implicit Types m : gmap string object.

Lemma ok_run_eq {A} (c : py bucket A) m a m' a2 m2 :
  ok_run c m a m' → a = a2 → m' = m2 → ok_run c m a2 m2.
Proof. by intros ? <- <-. Qed.

Lemma foldl_snoc {A} (l acc : list A) :
  foldl (λ acc x, acc ++ [x]) acc l = acc ++ l.
Proof.
  revert acc. induction l as [|x l IH]; intros acc; simpl.
  - by rewrite app_nil_r.
  - by rewrite IH, <-app_assoc.
Qed.

Lemma foldl_const {A B} (l : list A) (b : B) : foldl (λ b _, b) b l = b.
Proof. by induction l. Qed.

Lemma foldl_count {A} (l : list A) (n : nat) :
  foldl (λ n _, n + 1) n l = n + length l.
Proof. revert n. induction l as [|x l IH]; intros n; simpl; [|rewrite IH]; lia. Qed.

Lemma foldl_app_concat {A} (ls : list (list A)) (acc : list A) :
  foldl (λ acc l, acc ++ l) acc ls = acc ++ concat ls.
Proof.
  revert acc. induction ls as [|l ls IH]; intros acc; simpl.
  - by rewrite app_nil_r.
  - by rewrite IH, <-app_assoc.
Qed.

(** Collecting the keys of all pages of a listing. *)
Lemma ok_collect_keys Prefix (pages : list (list string)) m :
  ok_run (for_fold pages []
            (λ acc page,
               contents ← fetch Prefix page;
               for_fold contents acc (λ acc key, mret (acc ++ [key]))))
    m (concat pages) m.
Proof.
  eapply ok_run_eq.
  - apply (ok_for_fold _ (λ acc page, acc ++ page) (λ m _, m) (λ _, True));
      [|done].
    intros page acc m1 _ _. split; [|done].
    eapply ok_bind; [apply ok_fetch|].
    eapply ok_run_eq.
    + by apply (ok_for_fold _ (λ acc key, acc ++ [key]) (λ m _, m) (λ _, True));
        [intros; split; [apply ok_ret|done]|].
    + apply foldl_snoc.
    + apply foldl_const.
  - exact (foldl_app_concat pages []).
  - apply foldl_const.
Qed.

Lemma lookup_cleared Prefix m k :
  cleared Prefix m !! k = if String.prefix Prefix k then None else m !! k.
Proof.
  unfold cleared. destruct (String.prefix Prefix k) eqn:Hp.
  - destruct (m !! k) as [o|] eqn:Hk.
    + apply lookup_foldr_delete, elem_of_keys_with_prefix. eauto.
    + destruct (decide (k ∈ keys_with_prefix Prefix m)).
      * by apply lookup_foldr_delete.
      * by rewrite lookup_foldr_delete_not_elem_of.
  - apply lookup_foldr_delete_not_elem_of.
    rewrite elem_of_keys_with_prefix. intros [? _]. congruence.
Qed.

Lemma foldl_delete_batches m (batches : list (list string)) :
  foldl (λ m batch, foldr delete m batch) m batches
  = foldr delete m (concat batches).
Proof.
  revert m. induction batches as [|b bs IH]; intros m; [done|].
  simpl. rewrite IH, foldr_app. clear IH.
  induction b as [|k b IHb]; [done|]. simpl.
  by rewrite <-delete_foldr_delete, IHb.
Qed.

Lemma ok_clear_prefix Prefix m :
  ok_run (_clear_prefix Prefix) m tt (cleared Prefix m).
Proof.
  unfold _clear_prefix. apply ok_try.
  eapply ok_bind; [apply ok_paginate|].
  eapply ok_bind; [apply ok_collect_keys|].
  rewrite concat_pages_of. unfold cleared.
  set (ks := keys_with_prefix Prefix m).
  case_bool_decide as Hks.
  - rewrite Hks. apply ok_ret.
  - eapply ok_run_eq.
    + apply (ok_for_fold _ (λ _ _, tt)
               (λ m i, foldr delete m (slice ks i (i + 1000))) (λ _, True));
        [|done].
      intros i [] m1 _ _. split; [|done]. by apply ok_api.
    + generalize (range_step (length ks) 1000). intros l. by induction l.
    + rewrite <-(foldl_fmap (λ m batch, foldr delete m batch)).
      rewrite foldl_delete_batches.
      by rewrite (concat_range_slices ks 1000) by lia.
Qed.

Lemma ok_copy_s3_prefix source_prefix dest_prefix m :
  ok_run (_copy_s3_prefix source_prefix dest_prefix) m
    (length (keys_with_prefix source_prefix m))
    (foldl (copy_step source_prefix dest_prefix) m
       (keys_with_prefix source_prefix m)).
Proof.
  unfold _copy_s3_prefix.
  eapply ok_bind; [apply ok_paginate|].
  set (ks := keys_with_prefix source_prefix m).
  set (P := λ m' : gmap string object, ∀ key, key ∈ ks → is_Some (m' !! key)).
  assert (P m) as HP.
  { intros key Hkey. by apply elem_of_keys_with_prefix in Hkey as [_ ?]. }
  assert (∀ key m1 copied, key ∈ ks → P m1 →
            ok_run (copy_object key
                      (dest_prefix +:+ skip (String.length source_prefix) key) ;;
                    mret (copied + 1))
              m1 (copied + 1) (copy_step source_prefix dest_prefix m1 key)
            ∧ P (copy_step source_prefix dest_prefix m1 key)) as Hstep.
  { intros key m1 copied Hkey HP1. unfold copy_step.
    destruct (HP1 key Hkey) as [o Ho]. rewrite Ho. split.
    - eapply ok_bind; [|apply ok_ret]. apply ok_api. by rewrite Ho.
    - intros key' Hkey'. destruct (HP1 key' Hkey') as [o' Ho'].
      rewrite lookup_insert. case_decide; eauto. }
  eapply ok_run_eq.
  - refine (proj1 (ok_for_fold _ (λ n page, foldl (λ n _, n + 1) n page)
               (λ m page, foldl (copy_step source_prefix dest_prefix) m page)
               (λ m', P m') (pages_of ks) _ 0 m HP)).
    intros page copied m1 Hpage HP1.
    assert (∀ key, key ∈ page → key ∈ ks) as Hsub.
    { intros key Hkey. rewrite <-(concat_pages_of ks).
      apply elem_of_concat. eauto. }
    destruct (ok_for_fold
                (λ copied source_key,
                   copy_object source_key
                     (dest_prefix +:+ skip (String.length source_prefix) source_key) ;;
                   mret (copied + 1))
                (λ n _, n + 1) (copy_step source_prefix dest_prefix) P page
                (λ key acc m2 Hk HP2, Hstep key m2 acc (Hsub key Hk) HP2)
                copied m1 HP1) as [Hrun HPend].
    split; [|done]. eapply ok_bind; [apply ok_fetch|]. exact Hrun.
  - rewrite (foldl_concat (λ n (_ : string), n + 1)), concat_pages_of.
    by rewrite foldl_count.
  - by rewrite foldl_concat, concat_pages_of.
Qed.

End clear_and_copy.

(** ** Activation *)

Section activation.
Import S3 aws_manager.
Implicit Types m : gmap string object.

Lemma lookup_copy_other source_prefix dest_prefix ks m k :
  String.prefix dest_prefix k = false →
  foldl (copy_step source_prefix dest_prefix) m ks !! k = m !! k.
Proof.
  intros Hk. revert m. induction ks as [|key ks IH]; intros m; [done|].
  simpl. rewrite IH. unfold copy_step. destruct (m !! key); [|done].
  apply lookup_insert_ne. intros <-. by rewrite prefix_app in Hk.
Qed.

Lemma lookup_copy_dest source_prefix dest_prefix ks m r :
  (∀ r', String.prefix source_prefix (dest_prefix +:+ r') = false) →
  (∀ key, key ∈ ks → String.prefix source_prefix key = true) →
  (∀ key, key ∈ ks → is_Some (m !! key)) →
  foldl (copy_step source_prefix dest_prefix) m ks !! (dest_prefix +:+ r)
  = if decide (source_prefix +:+ r ∈ ks) then m !! (source_prefix +:+ r)
    else m !! (dest_prefix +:+ r).
Proof.
  intros Hdisj. revert m. induction ks as [|key ks IH]; intros m Hpre Hin.
  { by rewrite decide_False by apply not_elem_of_nil. }
  assert (source_prefix +:+ skip (String.length source_prefix) key = key) as Hkey.
  { symmetry. apply prefix_split, Hpre. by left. }
  destruct (Hin key) as [o Ho]; [by left|].
  assert (∀ k, String.prefix source_prefix k = true →
            copy_step source_prefix dest_prefix m key !! k = m !! k) as Hsrc.
  { intros k Hk. unfold copy_step. rewrite Ho. apply lookup_insert_ne.
    intros <-. by rewrite Hdisj in Hk. }
  simpl. rewrite IH.
  - rewrite Hsrc by apply prefix_app.
    destruct (decide (source_prefix +:+ r ∈ ks)) as [Hr|Hr].
    + by rewrite decide_True by (by right).
    + destruct (decide (source_prefix +:+ r = key)) as [<-|Hne].
      * rewrite decide_True by (by left). unfold copy_step.
        rewrite Ho, skip_app. by rewrite lookup_insert_eq.
      * rewrite decide_False.
        2:{ intros [?|?]%elem_of_cons; congruence. }
        unfold copy_step. rewrite Ho. apply lookup_insert_ne.
        intros Heq%(inj (String.app dest_prefix)). congruence.
  - intros key' Hkey'. apply Hpre. by right.
  - intros key' Hkey'. rewrite Hsrc by (apply Hpre; by right).
    apply Hin. by right.
Qed.

(** C1. In a run in which the object store rejects no request,
    [activate_version project version] returns, the object stored at
    [{project}/current/{rel}] afterwards is, for every [rel], exactly the
    object (body and metadata) that was stored at
    [{project}/builds/{version}/{rel}] (none where there was none, whatever
    [current/] held before), nothing outside [{project}/current/] changes,
    and the returned [copied_files] is the number of objects under
    [{project}/builds/{version}/]. *)
Theorem activate_version_replaces_current
    (self : AWSManager) (project version : string) (st : bucket) :
  faults st = [] →
  ∃ result st',
    activate_version self project version st = (Return result, st')
    ∧ copied_files result
      = length (keys_with_prefix (project +:+ "/builds/" +:+ version +:+ "/")
                  (objects st))
    ∧ (∀ rel,
         objects st' !! ((project +:+ "/current/") +:+ rel)
         = objects st !! ((project +:+ "/builds/" +:+ version +:+ "/") +:+ rel))
    ∧ (∀ k, String.prefix (project +:+ "/current/") k = false →
            objects st' !! k = objects st !! k).
Proof.
  intros Hquiet.
  set (src := project +:+ "/builds/" +:+ version +:+ "/").
  set (cur := project +:+ "/current/").
  set (m := objects st).
  assert (∀ r, String.prefix cur (src +:+ r) = false) as Hd1
    by (intros; apply builds_not_under_current).
  assert (∀ r, String.prefix src (cur +:+ r) = false) as Hd2
    by (intros; apply current_not_under_builds).
  pose proof (ok_clear_prefix cur m) as Hclear.
  pose proof (ok_copy_s3_prefix src cur (cleared cur m)) as Hcopy.
  assert (ok_run (activate_version self project version) m
            {| activation_version := version;
               copied_files := length (keys_with_prefix src (cleared cur m));
               activation_website_url := website_url_of self project |}
            (foldl (copy_step src cur) (cleared cur m)
               (keys_with_prefix src (cleared cur m)))) as Hrun.
  { unfold activate_version. apply ok_try.
    eapply ok_bind; [exact Hclear|].
    eapply ok_bind; [exact Hcopy|]. apply ok_ret. }
  destruct (Hrun st eq_refl Hquiet) as [t Ht].
  clear Hclear Hcopy Hrun. clearbody src cur m.
  assert (keys_with_prefix src (cleared cur m) = keys_with_prefix src m) as Hks.
  { apply keys_with_prefix_ext. intros k Hk.
    by rewrite lookup_cleared, (prefix_split _ _ Hk), Hd1. }
  eexists _, _. split; [exact Ht|]. simpl. rewrite Hks.
  split; [done|]. split.
  - intros rel. rewrite lookup_copy_dest.
    + rewrite !lookup_cleared, prefix_app, Hd1.
      case_decide as Hin; [done|].
      rewrite elem_of_keys_with_prefix, prefix_app in Hin.
      destruct (m !! (src +:+ rel)) eqn:Hl; [|done].
      exfalso. apply Hin. eauto.
    + done.
    + intros key Hkey. by apply elem_of_keys_with_prefix in Hkey as [? _].
    + intros key Hkey. apply elem_of_keys_with_prefix in Hkey as [Hp Hs].
      assert (String.prefix cur key = false) as Hc
        by (by rewrite (prefix_split _ _ Hp), Hd1).
      by rewrite lookup_cleared, Hc.
  - intros k Hk. rewrite lookup_copy_other by done.
    by rewrite lookup_cleared, Hk.
Qed.

End activation.

(** ** Version names: the first path segment under [builds/] *)

Section segments.
Import S3.
Implicit Types v w r s : string.

Lemma upto_delim_Some d s seg :
  upto_delim d s = Some seg →
  ∃ name rest, s = name +:+ String d rest ∧ seg = name +:+ String d ""
               ∧ contains_char d name = false.
Proof.
  revert seg. induction s as [|a s IH]; intros seg; [done|]. simpl.
  destruct (Ascii.eqb a d) eqn:Had.
  - apply Ascii.eqb_eq in Had as ->. intros [= <-]. by exists "", s.
  - destruct (upto_delim d s) as [seg'|]; [|done]. intros [= <-].
    destruct (IH seg' eq_refl) as (name & rest & -> & -> & Hname).
    exists (String a name), rest. simpl. by rewrite Had.
Qed.

Lemma upto_delim_app d name rest :
  contains_char d name = false →
  upto_delim d (name +:+ String d rest) = Some (name +:+ String d "").
Proof.
  induction name as [|a name IH]; simpl.
  - intros _. rewrite ?app_empty_l; simpl. by rewrite Ascii.eqb_refl.
  - intros [Had Hname]%orb_false_iff. rewrite ?app_cons; simpl.
    by rewrite Had, IH.
Qed.

Lemma rstrip_segment d name :
  contains_char d name = false → rstrip d (name +:+ String d "") = name.
Proof.
  induction name as [|a name IH]; simpl.
  - intros _. rewrite ?app_empty_l; simpl. by rewrite Ascii.eqb_refl.
  - intros [Had Hname]%orb_false_iff. rewrite ?app_cons; simpl.
    rewrite IH by done. destruct name; [by rewrite Had | done].
Qed.

Lemma segment_inj d v w r s :
  contains_char d v = false → contains_char d w = false →
  v +:+ String d r = w +:+ String d s → v = w.
Proof.
  revert w. induction v as [|a v IH]; intros [|b w]; simpl.
  - done.
  - intros _ [Hbd _]%orb_false_iff. rewrite ?app_empty_l, ?app_cons.
    intros [= <- _]. by rewrite Ascii.eqb_refl in Hbd.
  - intros [Had _]%orb_false_iff _. rewrite ?app_empty_l, ?app_cons.
    intros [= -> _]. by rewrite Ascii.eqb_refl in Had.
  - intros [_ Hv]%orb_false_iff [_ Hw]%orb_false_iff. rewrite ?app_cons.
    intros [= -> Heq]. f_equal. by eapply IH.
Qed.

(** Two version sub-trees with different names share no key. *)
Lemma version_prefix_inj project v w k :
  contains_char slash v = false → contains_char slash w = false →
  String.prefix (project +:+ "/builds/" +:+ v +:+ "/") k = true →
  String.prefix (project +:+ "/builds/" +:+ w +:+ "/") k = true →
  v = w.
Proof.
  intros Hv Hw Hpv Hpw.
  apply prefix_split in Hpv. apply prefix_split in Hpw.
  rewrite Hpv in Hpw at 1.
  rewrite !app_assoc_str in Hpw.
  apply (inj (String.app project)) in Hpw.
  apply (inj (String.app "/builds/")) in Hpw.
  by eapply (segment_inj slash).
Qed.

End segments.

(** ** Listing versions *)

Section versions.
Implicit Types m : gmap string object.

Local Instance ge_str_trans : Transitive (flip String.le).
Proof. intros x y z Hxy Hyz. unfold flip in *. by etrans. Qed.

Local Instance ge_str_total : Total (flip String.le).
Proof. intros x y. unfold flip. destruct (total String.le y x); auto. Qed.

Local Instance ge_str_antisymm : AntiSymm (=) (flip String.le).
Proof. intros x y Hxy Hyx. unfold flip in *. by apply (anti_symm String.le). Qed.

Lemma foldl_add_version bp (ps acc : list string) :
  foldl (add_version bp) acc ps
  = acc ++ filter (λ v, v ≠ "") (version_of_prefix bp <$> ps).
Proof.
  revert acc. induction ps as [|p ps IH]; intros acc; simpl.
  - by rewrite app_nil_r.
  - rewrite IH. unfold add_version. rewrite filter_cons.
    case_bool_decide as Hv.
    + by rewrite decide_False by (by intros ?).
    + rewrite decide_True by done. by rewrite <-app_assoc.
Qed.

Lemma foldl_add_version_pages bp (pages : list (list entry)) acc :
  foldl (λ acc page, foldl (add_version bp) acc (common_prefixes_of page))
    acc pages
  = acc ++ filter (λ v, v ≠ "")
             (version_of_prefix bp <$> common_prefixes_of (concat pages)).
Proof.
  revert acc. induction pages as [|page pages IH]; intros acc; simpl.
  - by rewrite app_nil_r.
  - rewrite IH, foldl_add_version. unfold common_prefixes_of.
    by rewrite omap_app, fmap_app, filter_app, <-app_assoc.
Qed.

Lemma ok_list_versions project m :
  ok_run (list_versions project) m (stored_versions project m) m.
Proof.
  unfold list_versions. apply ok_try.
  eapply ok_bind; [apply ok_paginate_delimited|].
  set (bp := project +:+ "/builds/").
  eapply ok_bind; [|apply ok_ret].
  eapply ok_run_eq.
  - apply (ok_for_fold _
             (λ acc page, foldl (add_version bp) acc (common_prefixes_of page))
             (λ m _, m) (λ _, True)); [|done].
    intros page acc m1 _ _. split; [|done].
    eapply ok_bind; [apply ok_fetch|].
    eapply ok_run_eq.
    + apply (ok_for_fold _ (add_version bp) (λ m _, m) (λ _, True)); [|done].
      intros p acc' m2 _ _. split; [|done].
      unfold add_version, version_of_prefix. case_bool_decide; apply ok_ret.
    + done.
    + apply foldl_const.
  - rewrite foldl_add_version_pages, concat_pages_of. done.
  - apply foldl_const.
Qed.

Lemma elem_of_common_prefixes bp m p :
  p ∈ common_prefixes_of (entries_with_prefix bp slash m) ↔
  ∃ k, k ∈ keys_with_prefix bp m ∧ roll_up bp slash k = CommonPrefixes p.
Proof.
  unfold common_prefixes_of, entries_with_prefix.
  rewrite list_elem_of_omap. split.
  - intros (e & He & Hp). destruct e as [|p']; simplify_eq.
    apply elem_of_remove_dups, list_elem_of_fmap in He as (k & Hk & Hin).
    eauto.
  - intros (k & Hin & Hk). exists (CommonPrefixes p). split; [|done].
    apply elem_of_remove_dups, list_elem_of_fmap. eauto.
Qed.

(** Every rolled-up entry is the sub-tree prefix of a slash-free name. *)
Lemma common_prefix_shape project m p :
  p ∈ common_prefixes_of (entries_with_prefix (project +:+ "/builds/") slash m) →
  ∃ name k, p = (project +:+ "/builds/") +:+ name +:+ "/"
            ∧ contains_char slash name = false
            ∧ version_of_prefix (project +:+ "/builds/") p = name
            ∧ is_Some (m !! k)
            ∧ String.prefix (version_prefix project name) k = true.
Proof.
  set (bp := project +:+ "/builds/").
  intros (k & Hin & Hk)%elem_of_common_prefixes.
  apply elem_of_keys_with_prefix in Hin as [Hpre Hsome].
  unfold roll_up in Hk.
  destruct (upto_delim slash (skip (String.length bp) k)) as [seg|] eqn:Hseg;
    [|done].
  injection Hk as <-.
  apply upto_delim_Some in Hseg as (name & rest & Hskip & -> & Hname).
  exists name, k. split_and!; [done|done| | done |].
  - unfold version_of_prefix. rewrite skip_app. by apply rstrip_segment.
  - rewrite (prefix_split _ _ Hpre), Hskip. unfold version_prefix, bp.
    replace (String slash rest) with ("/" +:+ rest) by done.
    rewrite <-!app_assoc_str. apply prefix_app.
Qed.

Lemma elem_of_stored_versions project m v :
  v ∈ stored_versions project m ↔
  v ≠ "" ∧ contains_char slash v = false
  ∧ ∃ k, is_Some (m !! k) ∧ String.prefix (version_prefix project v) k = true.
Proof.
  unfold stored_versions, sorted_reverse.
  rewrite merge_sort_Permutation, list_elem_of_filter, list_elem_of_fmap.
  set (bp := project +:+ "/builds/"). split.
  - intros [Hne (p & -> & Hp)].
    destruct (common_prefix_shape _ _ _ Hp) as (name & k & _ & ? & Hv & ? & ?).
    fold bp in Hv. rewrite Hv in *. eauto.
  - intros (Hne & Hv & k & Hk & Hpre). split; [done|].
    exists (bp +:+ v +:+ "/").
    assert (String.prefix bp k = true) as Hbp.
    { unfold version_prefix in Hpre. rewrite <-app_assoc_str in Hpre.
      by apply prefix_trans_app in Hpre. }
    split.
    + unfold version_of_prefix. rewrite skip_app. symmetry.
      by apply rstrip_segment.
    + apply elem_of_common_prefixes. exists k. split.
      * by apply elem_of_keys_with_prefix.
      * apply prefix_split in Hpre. unfold version_prefix in Hpre.
        rewrite <-app_assoc_str in Hpre. fold bp in Hpre.
        rewrite app_assoc_str in Hpre.
        unfold roll_up. rewrite Hpre, skip_app.
        rewrite app_assoc_str.
        replace ("/" +:+ skip (String.length (bp +:+ v +:+ "/")) k)
          with (String slash (skip (String.length (bp +:+ v +:+ "/")) k)) by done.
        by rewrite upto_delim_app.
Qed.

Lemma NoDup_omap {A B} (f : A → option B) (l : list A) :
  (∀ x y z, x ∈ l → y ∈ l → f x = Some z → f y = Some z → x = y) →
  NoDup l → NoDup (omap f l).
Proof.
  intros Hinj Hl. induction Hl as [|x l Hx Hl IH]; simpl; [constructor|].
  assert (NoDup (omap f l)) as IH'.
  { apply IH. intros ??? ??. apply Hinj; by right. }
  destruct (f x) as [z|] eqn:Hfx; [|done].
  constructor; [|done].
  intros (y & Hy & Hfy)%list_elem_of_omap.
  assert (x = y) as <-; [|done].
  eapply Hinj; [by left | by right | done..].
Qed.

Lemma NoDup_stored_versions project m : NoDup (stored_versions project m).
Proof.
  unfold stored_versions, sorted_reverse. rewrite merge_sort_Permutation.
  apply NoDup_filter, NoDup_fmap_2_strong.
  - intros p q Hp Hq Heq.
    destruct (common_prefix_shape _ _ _ Hp) as (n1 & _ & -> & _ & Hv1 & _).
    destruct (common_prefix_shape _ _ _ Hq) as (n2 & _ & -> & _ & Hv2 & _).
    congruence.
  - apply NoDup_omap; [|apply NoDup_remove_dups].
    intros [|] [|] z _ _; naive_solver.
Qed.

Lemma sorted_stored_versions project m :
  StronglySorted (flip String.le) (stored_versions project m).
Proof. apply StronglySorted_merge_sort; apply _. Qed.


End versions.

(** ** Retention *)

Section retention.
Implicit Types m : gmap string object.




End retention.

(** ** Deployment status *)

Section status.

(** C10. [get_project_status] always returns.  When the store rejects the
    probe with error [e], the result is [is_deployed = False] with
    [error = e]; when the probe is served, [is_deployed] is true exactly
    when some object exists under [{project}/current/], and [website_url]
    is set exactly in that case. *)
Theorem get_project_status_never_raises
    (self : AWSManager) (project : string) (st : bucket) :
  ∃ status st',
    get_project_status self project st = (Return status, st')
    ∧ match head (faults st) with
      | Some (Some e) =>
          status = {| is_deployed := false; website_url := None;
                      status_bucket := None; status_region := None;
                      error := Some e |}
      | _ =>
          (is_deployed status = true ↔
             ∃ k, String.prefix (project +:+ "/current/") k = true
                  ∧ is_Some (objects st !! k))
          ∧ website_url status
            = (if is_deployed status then Some (website_url_of self project)
               else None)
          ∧ error status = None
      end.
Proof.
  assert ((0 < length (take 1 (keys_with_prefix (project +:+ "/current/")
                                 (objects st)))) ↔
          ∃ k, String.prefix (project +:+ "/current/") k = true
               ∧ is_Some (objects st !! k)) as Hprobe.
  { destruct (keys_with_prefix _ _) as [|k ks] eqn:Hks; simpl.
    - split; [lia|]. intros (k & Hk).
      apply elem_of_keys_with_prefix in Hk. rewrite Hks in Hk.
      by apply not_elem_of_nil in Hk.
    - split; [|lia]. intros _. exists k.
      apply elem_of_keys_with_prefix. rewrite Hks. by left. }
  unfold get_project_status, try_except, list_objects_v2_one, api,
    mbind, py_bind, mret, py_ret.
  destruct (head (faults st)) as [[e|]|]; simpl.
  - by eexists _, _.
  - eexists _, _. split; [done|]. simpl. split_and!; [|done..].
    by rewrite bool_decide_eq_true.
  - eexists _, _. split; [done|]. simpl. split_and!; [|done..].
    by rewrite bool_decide_eq_true.
Qed.

End status.

(** ** Rejected requests *)

Section rejections.
Implicit Types Q : api_call → Prop.

Lemma fail_stop_ret {A} Q (a : A) : fail_stop Q (mret a).
Proof.
  intros st r st'. unfold mret, py_ret. intros [= <- <-]. exists []. by rewrite app_nil_r.
Qed.

Lemma fail_stop_bind {A B} Q (c : py bucket A) (k : A → py bucket B) :
  fail_stop Q c → (∀ a, fail_stop Q (k a)) → fail_stop Q (c ≫= k).
Proof.
  intros Hc Hk st r st'. unfold mbind, py_bind.
  destruct (c st) as [[a|e] st1] eqn:Hrun.
  - intros Hrun2.
    destruct (Hc _ _ _ Hrun) as (new1 & Ht1 & HQ1 & Hok1).
    destruct (Hk a _ _ _ Hrun2) as (new2 & Ht2 & HQ2 & Hr2).
    exists (new1 ++ new2). rewrite Ht2, Ht1, <-app_assoc.
    split; [done|]. split; [by apply Forall_app|].
    destruct r as [b|e].
    + by apply Forall_app.
    + destruct Hr2 as (pre & call & -> & Hpre).
      exists (new1 ++ pre), call. rewrite <-app_assoc.
      split; [done|]. by apply Forall_app.
  - intros [= <- <-]. exact (Hc _ _ _ Hrun).
Qed.

Lemma fail_stop_api {A} Q c
    (serve : gmap string object → outcome (A * gmap string object)) :
  Q c → fail_stop Q (api c serve).
Proof.
  intros HQ st r st'. unfold api.
  destruct (head (faults st)) as [[e|]|];
    [|destruct (serve (objects st)) as [[a m']|e]..];
    intros [= <- <-]; simpl; eexists; (split; [done|]);
    (split; [by repeat constructor|]);
    first [by repeat constructor | by exists [], c].
Qed.

Lemma fail_stop_for_fold {A B} Q (body : B → A → py bucket B) (l : list A) :
  (∀ acc x, fail_stop Q (body acc x)) →
  ∀ acc, fail_stop Q (for_fold l acc body).
Proof.
  intros Hbody. induction l as [|x l IH]; intros acc; simpl.
  - apply fail_stop_ret.
  - apply fail_stop_bind; [apply Hbody | apply IH].
Qed.

Lemma fail_stop_paginate Q Prefix : fail_stop Q (paginate Prefix).
Proof.
  intros st r st'. unfold paginate. intros [= <- <-]. exists []. by rewrite app_nil_r.
Qed.

Lemma fail_stop_calls_within {A} Q (c : py bucket A) :
  fail_stop Q c → calls_within Q c.
Proof.
  intros Hc st r st' Hrun. destruct (Hc _ _ _ Hrun) as (new & ? & ? & _).
  eauto.
Qed.

Lemma fail_stop_clear_body Prefix :
  fail_stop (clear_phase Prefix)
    (pages ← paginate Prefix;
     objects_to_delete ← for_fold pages []
       (λ acc page,
          contents ← fetch Prefix page;
          for_fold contents acc (λ acc key, mret (acc ++ [key])));
     if bool_decide (objects_to_delete = []) then mret tt
     else
       for_each (range_step (length objects_to_delete) 1000)
         (λ i, delete_objects (slice objects_to_delete i (i + 1000)))).
Proof.
  apply fail_stop_bind; [apply fail_stop_paginate|]. intros pages.
  apply fail_stop_bind.
  - apply fail_stop_for_fold. intros acc page.
    apply fail_stop_bind; [by apply fail_stop_api|]. intros contents.
    apply fail_stop_for_fold. intros. apply fail_stop_ret.
  - intros ks. case_bool_decide; [apply fail_stop_ret|].
    apply fail_stop_for_fold. intros _ i. by apply fail_stop_api.
Qed.

(** [_clear_prefix] never raises, whatever the store answers. *)
Lemma clear_prefix_swallows Prefix st :
  ∃ st' new, _clear_prefix Prefix st = (Return tt, st')
             ∧ trace st' = trace st ++ new
             ∧ Forall (λ entry, clear_phase Prefix entry.1) new.
Proof.
  pose proof (fail_stop_clear_body Prefix st) as Hbody.
  unfold _clear_prefix, try_except.
  match goal with
  | |- context [match ?c st with _ => _ end] =>
      destruct (c st) as [[[]|e] st1]
  end; destruct (Hbody _ _ eq_refl) as (new & Ht & HQ & _); by eexists _, new.
Qed.

Lemma fail_stop_copy source_prefix dest_prefix :
  fail_stop (copy_phase source_prefix)
    (_copy_s3_prefix source_prefix dest_prefix).
Proof.
  unfold _copy_s3_prefix.
  apply fail_stop_bind; [apply fail_stop_paginate|]. intros pages.
  apply fail_stop_for_fold. intros copied page.
  apply fail_stop_bind; [by apply fail_stop_api|]. intros contents.
  apply fail_stop_for_fold. intros copied' key.
  apply fail_stop_bind; [by apply fail_stop_api|]. intros _.
  apply fail_stop_ret.
Qed.

(** C4, as the code has it.  The requests of an activation are those of the
    clearing phase followed by those of the copy phase.  The outcome is
    decided by the copy phase alone: [activate_version] returns only if
    every copy-phase request was served, and a rejected copy-phase request
    is the last one sent and its error [e] reaches the caller as
    [Failed to activate version: e].  Rejections in the clearing phase are
    caught inside [_clear_prefix] and do not stop the activation. *)
Theorem activate_version_copy_errors_propagate
    (self : AWSManager) (project version : string) (st : bucket) :
  ∃ r st' clearing copying,
    activate_version self project version st = (r, st')
    ∧ trace st' = trace st ++ clearing ++ copying
    ∧ Forall (λ entry, clear_phase (project +:+ "/current/") entry.1) clearing
    ∧ Forall (λ entry,
                copy_phase (project +:+ "/builds/" +:+ version +:+ "/") entry.1)
             copying
    ∧ match r with
      | Return _ => Forall served copying
      | Raise msg =>
          ∃ pre call e, copying = pre ++ [(call, Some e)]
                        ∧ Forall served pre
                        ∧ msg = "Failed to activate version: " +:+ e
      end.
Proof.
  destruct (clear_prefix_swallows (project +:+ "/current/") st)
    as (st1 & clearing & Hclear & Ht1 & HQ1).
  unfold activate_version, try_except, mbind, py_bind. rewrite Hclear.
  destruct (_copy_s3_prefix _ _ st1) as [[copied|e] st2] eqn:Hcopy;
    destruct (fail_stop_copy _ _ _ _ _ Hcopy) as (copying & Ht2 & HQ2 & Hr);
    simpl; eexists _, _, clearing, copying;
    (split; [done|]); rewrite Ht2, Ht1, <-app_assoc; split_and!; try done.
  destruct Hr as (pre & call & -> & Hpre). by exists pre, call, e.
Qed.

End rejections.

(** ** The properties on concrete stores *)

Section concrete_runs.
Import examples.

Lemma activate_version_replaces_current_witness :
  ∃ result st',
    activate_version tool "shop" "v20250103-000000" (quiet shop)
      = (Return result, st')
    ∧ copied_files result
      = length (keys_with_prefix ("shop" +:+ "/builds/" +:+ "v20250103-000000" +:+ "/")
                  (objects (quiet shop)))
    ∧ (∀ rel,
         objects st' !! (("shop" +:+ "/current/") +:+ rel)
         = objects (quiet shop)
             !! (("shop" +:+ "/builds/" +:+ "v20250103-000000" +:+ "/") +:+ rel))
    ∧ (∀ k, String.prefix ("shop" +:+ "/current/") k = false →
            objects st' !! k = objects (quiet shop) !! k).
Proof.
  apply (activate_version_replaces_current tool "shop" "v20250103-000000"
           (quiet shop)).
  reflexivity.
Defined.

(** The example of the specification: activating the third version while
    [current/] holds the second leaves exactly the third's files. *)
Example activate_shop :
  let run := activate_version tool "shop" "v20250103-000000" (quiet shop) in
  copied_files <$> (match run.1 with Return r => Some r | Raise _ => None end)
    = Some 2
  ∧ keys_with_prefix "shop/current/" (objects run.2)
    = ["shop/current/assets/app.js"; "shop/current/index.html"]
  ∧ objects run.2 !! "shop/current/index.html" = Some (html "three")
  ∧ objects run.2 !! "shop/current/old.js" = None.
Proof. vm_compute. done. Qed.


(** The example of the specification: three versions, [keep=2]. *)
Example cleanup_shop :
  let run := cleanup_old_versions "shop" 2 (quiet shop) in
  run.1 = Return 1
  ∧ (list_versions "shop" run.2).1
    = Return ["v20250103-000000"; "v20250102-000000"]
  ∧ keys_with_prefix "shop/builds/v20250101-000000/" (objects run.2) = [].
Proof. vm_compute. done. Qed.

(** C4 as stated fails: a rejected request of the clearing phase does not
    stop the activation, which reports success. *)
Lemma activate_version_reports_success_after_rejection :
  ¬ (∀ (self : AWSManager) (project version : string) (st : bucket) r st',
       trace st = [] →
       activate_version self project version st = (Return r, st') →
       Forall served (trace st')).
Proof.
  intros Hclaim.
  set (st := rejecting_next "AccessDenied" shop).
  destruct (activate_version tool "shop" "v20250103-000000" st)
    as [[r|e] st'] eqn:Hrun.
  - pose proof (Hclaim tool _ _ st r st' eq_refl Hrun) as Hserved.
    vm_compute in Hrun. injection Hrun as _ <-.
    apply Forall_cons in Hserved as [Hhead _]. discriminate Hhead.
  - vm_compute in Hrun. discriminate Hrun.
Qed.

End concrete_runs.

(** ** Upload *)

Section upload.
Import examples.
Implicit Types m : gmap string object.

Lemma replace_char_app a b p r :
  replace_char a b (p +:+ r) = replace_char a b p +:+ replace_char a b r.
Proof. induction p as [|c p IH]; [done|]. rewrite app_cons. simpl. by rewrite IH. Qed.











Lemma replace_char_absent a b p :
  contains_char a p = false → replace_char a b p = p.
Proof.
  induction p as [|c p IH]; [done|]. simpl.
  intros [Hc Hp]%orb_false_iff. by rewrite Hc, IH.
Qed.

(** The key of a file when neither label contains a backslash. *)
Lemma upload_key_under_prefix project version relative_path :
  contains_char backslash project = false →
  contains_char backslash version = false →
  replace_char backslash slash
    ((project +:+ "/builds/" +:+ version +:+ "/") +:+ relative_path)
  = (project +:+ "/builds/" +:+ version +:+ "/")
      +:+ replace_char backslash slash relative_path.
Proof.
  intros Hp Hv. rewrite !replace_char_app.
  by rewrite (replace_char_absent _ _ project), (replace_char_absent _ _ version).
Qed.

Lemma lookup_foldl_insert_other {A} (key : A → string) (obj : A → object)
    (l : list A) m k :
  k ∉ key <$> l →
  foldl (λ m x, <[key x := obj x]> m) m l !! k = m !! k.
Proof.
  revert m. induction l as [|x l IH]; intros m Hk; [done|].
  rewrite fmap_cons in Hk. apply not_elem_of_cons in Hk as [Hne Hk].
  simpl. rewrite IH by done. by apply lookup_insert_ne.
Qed.

Lemma lookup_foldl_insert {A} (key : A → string) (obj : A → object)
    (l : list A) m x :
  NoDup (key <$> l) → x ∈ l →
  foldl (λ m x, <[key x := obj x]> m) m l !! key x = Some (obj x).
Proof.
  revert m. induction l as [|y l IH]; intros m Hnd Hx.
  { by apply not_elem_of_nil in Hx. }
  rewrite fmap_cons in Hnd. apply NoDup_cons in Hnd as [Hy Hnd].
  apply elem_of_cons in Hx as [->|Hx]; simpl.
  - rewrite lookup_foldl_insert_other by done. apply lookup_insert_eq.
  - by apply IH.
Qed.

Lemma upload_counters (files : list (string * string)) (c : nat * nat) :
  (foldl (λ (c : nat * nat) (file : string * string),
            (c.1 + 1, c.2 + String.length file.2)) c files).1
  = c.1 + length files.
Proof.
  revert c. induction files as [|file files IH]; intros c; simpl; [lia|].
  rewrite IH. simpl. lia.
Qed.




(** What happens to a version label with a backslash, end to end: the
    object lands under [shop/builds/v1/hotfix/], nothing is stored under
    the prefix [activate_version] reads for that label, and activating it
    finds nothing to copy. *)
Example deploy_then_activate_backslash_label
    (guess_type : string → option string) :
  let uploaded :=
    deploy_version guess_type tool "shop" "v1\hotfix"
      [("index.html", "<html></html>")] (quiet ∅) in
  let activated := activate_version tool "shop" "v1\hotfix" uploaded.2 in
  uploaded_files
    <$> (match uploaded.1 with Return r => Some r | Raise _ => None end)
    = Some 1
  ∧ sorted_keys (objects uploaded.2) = ["shop/builds/v1/hotfix/index.html"]
  ∧ keys_with_prefix "shop/builds/v1\hotfix/" (objects uploaded.2) = []
  ∧ copied_files
      <$> (match activated.1 with Return r => Some r | Raise _ => None end)
    = Some 0
  ∧ keys_with_prefix "shop/current/" (objects activated.2) = [].
Proof. vm_compute. done. Qed.

(** C8, at a [.jpeg] image.  The content-type table of the same class
    knows the file as an image; the cache-control list names [.jpg] but not
    [.jpeg] (nor [.webp], [.eot], [.mjs]), so the file gets the one-day
    default instead of the long-lived immutable directive. *)
Theorem get_cache_control_misses_jpeg :
  _get_cache_control "assets/photo.jpeg" = "public, max-age=86400"
  ∧ _get_cache_control "assets/photo.jpg" = "public, max-age=31536000, immutable"
  ∧ dict_get content_types (lower (PyPath.suffix "assets/photo.jpeg"))
      "binary/octet-stream" = "image/jpeg"
  ∧ _get_cache_control "assets/hero.webp" = "public, max-age=86400"
  ∧ _get_cache_control "fonts/legacy.eot" = "public, max-age=86400"
  ∧ _get_cache_control "assets/module.mjs" = "public, max-age=86400".
Proof. vm_compute. done. Qed.

(** The parts of C8 the code does implement. *)
Lemma get_cache_control_by_suffix file_path :
  let suffix := lower (PyPath.suffix file_path) in
  (suffix ∈ [".js"; ".css"; ".png"; ".jpg"; ".gif"; ".svg"; ".ico";
             ".woff"; ".woff2"; ".ttf"] →
   _get_cache_control file_path = "public, max-age=31536000, immutable")
  ∧ (suffix = ".html" →
     _get_cache_control file_path = "public, max-age=0, must-revalidate")
  ∧ (suffix ∈ [".json"; ".xml"; ".txt"] →
     _get_cache_control file_path = "public, max-age=3600").
Proof.
  intros suffix. unfold _get_cache_control. fold suffix.
  split_and!.
  - intros Hin. repeat (apply elem_of_cons in Hin as [->|Hin]; [done|]).
    by apply not_elem_of_nil in Hin.
  - by intros ->.
  - intros Hin. repeat (apply elem_of_cons in Hin as [->|Hin]; [done|]).
    by apply not_elem_of_nil in Hin.
Qed.

End upload.


(** ** Framework detection *)

Import host utils re build_manager build_spec.

Section detection.

Lemma py_contains_union key (runtime development : gmap string json) :
  py_contains key (development ∪ runtime)
  = bool_decide (key ∈ dom runtime ∪ dom development).
Proof.
  unfold py_contains. apply bool_decide_ext.
  rewrite lookup_union_is_Some, elem_of_union, !elem_of_dom. tauto.
Qed.

(** C3. [_detect_framework_and_build_dir] always returns and leaves the
    host untouched.  For a manifest that parses to an object whose
    dependency groups are mappings (an absent group counting as empty) the
    result is the pair of the first key of the priority table
    vite, next, @angular/core, vue, react-scripts, react that the merged
    groups declare, and [('node', 'dist')] when they declare none; for a
    missing file, unparsable text, or any other manifest the result is
    [('react', 'build')]. *)
Theorem detect_framework_by_priority
    (json_load : string → json + string) (project_dir : string) (w : world) :
  _detect_framework_and_build_dir json_load project_dir w
  = (Return
       match fs w !! PyPath.joinpath project_dir "package.json" with
       | None => ("react", "build")
       | Some text =>
           match json_load text with
           | inr _ => ("react", "build")
           | inl manifest =>
               match merged_dependencies manifest with
               | Some declared =>
                   first_match priority (λ key, bool_decide (key ∈ declared))
                     ("node", "dist")
               | None => ("react", "build")
               end
           end
       end, w).
Proof.
  unfold _detect_framework_and_build_dir, try_except, load_json_file.
  unfold mbind at 1, py_bind at 1.
  destruct (fs w !! _) as [text|]; [|done].
  destruct (json_load text) as [manifest|e]; [|done].
  destruct manifest as [| | | | |members]; try done.
  unfold merged_dependencies, dependency_group, py_get.
  unfold mbind, py_bind, mret, py_ret; simpl.
  destruct (members !! "dependencies") as [[| | | | |runtime]|]; simpl;
    try done;
    destruct (members !! "devDependencies") as [[| | | | |development]|];
    simpl; try done;
    rewrite !py_contains_union;
    repeat (case_bool_decide; [done|]); done.
Qed.

(** The table of the specification on manifests that declare one key. *)
Example detect_single_key :
  let declares (key : string) : outcome (string * string) :=
    (_detect_framework_and_build_dir
       (λ _, inl (JObject {[ "dependencies" := JObject {[ key := JString "*" ]} ]}))
       "/work/app"
       {| fs := {[ "/work/app/package.json" := "..." ]}; console := [];
          build_successful := false |}).1 in
  declares "vite" = Return ("vite", "dist")
  ∧ declares "next" = Return ("next", ".next")
  ∧ declares "@angular/core" = Return ("angular", "dist")
  ∧ declares "vue" = Return ("vue", "dist")
  ∧ declares "react-scripts" = Return ("react", "build")
  ∧ declares "react" = Return ("react", "build")
  ∧ declares "express" = Return ("node", "dist").
Proof. vm_compute. done. Qed.

End detection.

(** ** The build ladder *)

Section ladder.
Variable subprocess_run :
  list string → string → nat → gmap string string →
  completion * gmap string string.



Hypothesis never_exits_0 :
  ∀ command cwd timeout files,
    (subprocess_run command cwd timeout files).1 ≠ Exited0.










End ladder.

(** ** The configuration file around the build without configuration *)

Section config_restore.
Variable subprocess_run :
  list string → string → nat → gmap string string →
  completion * gmap string string.

Lemma config_ne_backup project_dir :
  PyPath.joinpath project_dir "vite.config.js"
  ≠ PyPath.joinpath project_dir "vite.config.js.backup".
Proof.
  unfold PyPath.joinpath. intros Heq.
  apply (inj (String.app project_dir)) in Heq. done.
Qed.

Lemma rename_existing source target w text :
  fs w !! source = Some text →
  rename source target w
  = (Return tt, with_fs (λ m, <[target := text]> (delete source m)) w).
Proof. intros H. unfold rename. by rewrite H. Qed.



End config_restore.

(** ** The ladder on concrete hosts *)

Section concrete_builds.
Import build_examples.




(** Both paths of the build without configuration on a concrete project. *)
Example build_without_config_both_paths :
  let config := "/work/app/vite.config.js" in
  let after (c : completion) :=
    (build_without_config (always c) "/work/app" vite_project).2 in
  fs (after Exited0) !! config = fs vite_project !! config
  ∧ build_successful (after Exited0) = true
  ∧ fs (after TimeoutExpired) !! config = fs vite_project !! config
  ∧ build_successful (after TimeoutExpired) = false
  ∧ fs (after Exited0) !! "/work/app/vite.config.js.backup" = None.
Proof. vm_compute. done. Qed.

End concrete_builds.

(** ** The matcher *)

Section matcher.
Implicit Types s t u : string.

Lemma run_star_sound p s a :
  a ∈ run_star p s → s = consumed a +:+ rest a.
Proof.
  revert a. induction s as [|c s IH]; intros a; simpl.
  - by intros ->%list_elem_of_singleton.
  - intros [Hin | ->%list_elem_of_singleton]%elem_of_app; [|done].
    destruct (p c); [|by apply not_elem_of_nil in Hin].
    apply list_elem_of_fmap in Hin as (a' & -> & Hin). simpl.
    by rewrite app_cons, <-(IH a').
Qed.

(** What the matcher reports was there: the text splits into what was
    consumed and what is left, and the pattern admits what was consumed. *)
Lemma run_sound r s a :
  a ∈ re.run r s → s = consumed a +:+ rest a ∧ lang r (consumed a).
Proof.
  revert s a. induction r as [l|p|p|c|r1 IH1 r2 IH2|r1 IH1 r2 IH2|n r IH];
    intros s a; simpl.
  - destruct (String.prefix l s) eqn:Hp; [|by intros ?%not_elem_of_nil].
    intros ->%list_elem_of_singleton. simpl. split; [|done].
    by apply prefix_split.
  - destruct s as [|c s]; [by intros ?%not_elem_of_nil|].
    destruct (p c) eqn:Hp; [|by intros ?%not_elem_of_nil].
    intros ->%list_elem_of_singleton. simpl. eauto.
  - intros Hin. split; [|done]. by eapply run_star_sound.
  - destruct s as [|b s].
    + intros ->%list_elem_of_singleton. simpl. auto.
    + intros [Hin | ->%list_elem_of_singleton]%elem_of_app; [|simpl; auto].
      destruct (Ascii.eqb b c) eqn:Hbc; [|by apply not_elem_of_nil in Hin].
      apply list_elem_of_singleton in Hin as ->. simpl.
      apply Ascii.eqb_eq in Hbc as ->. auto.
  - intros [Hin|Hin]%elem_of_app.
    + destruct (IH1 _ _ Hin). auto.
    + destruct (IH2 _ _ Hin). auto.
  - intros (a1 & Hin2 & Hin1)%list_elem_of_bind.
    apply list_elem_of_fmap in Hin2 as (a2 & -> & Hin2). simpl.
    destruct (IH1 _ _ Hin1) as [Hs1 Hl1].
    destruct (IH2 _ _ Hin2) as [Hs2 Hl2].
    split; [|eauto]. by rewrite app_assoc_str, <-Hs2.
  - intros (a' & -> & Hin)%list_elem_of_fmap. simpl. by apply IH.
Qed.

Lemma occurs_prefix t s : String.prefix t s = true → occurs t s = true.
Proof. intros Hp. destruct s; simpl in *; by rewrite Hp. Qed.

Lemma occurs_cons t c s : occurs t s = true → occurs t (String c s) = true.
Proof. intros H. simpl. rewrite H. apply orb_true_r. Qed.

Lemma occurs_app_l t u s : occurs t s = true → occurs t (u +:+ s) = true.
Proof.
  intros H. induction u as [|c u IH]; [done|].
  rewrite app_cons. by apply occurs_cons.
Qed.

(** [t] occurs in any text built around it. *)
Lemma occurs_middle t u v : occurs t (u +:+ t +:+ v) = true.
Proof. apply occurs_app_l, occurs_prefix, prefix_app. Qed.

Lemma occurs_tail t c s : occurs t (String c s) = false → occurs t s = false.
Proof. simpl. by intros [_ ?]%orb_false_iff. Qed.

(** Where a pattern matches nowhere, [re.sub] returns its argument:
    [needs] is a test every text the pattern matches at its start passes,
    and that a text fails as soon as a longer one does. *)
Lemma sub_unchanged pattern repl (needs : string → bool) s :
  (∀ c u, needs (String c u) = false → needs u = false) →
  (∀ u a, a ∈ re.run pattern u → needs u = true) →
  needs s = false → sub pattern repl s = s.
Proof.
  intros Htail Hneeds. unfold sub. induction s as [|c s IH]; [done|].
  intros Hocc. simpl.
  destruct (re.run pattern (String c s)) as [|a l] eqn:Hrun.
  - by rewrite IH by (by eapply Htail).
  - rewrite (Hneeds (String c s) a) in Hocc; [done|].
    rewrite Hrun. by left.
Qed.

End matcher.

(** ** Asset path normalisation *)

Section normalisation.
Implicit Types s t u : string.

Lemma occurs_split t u x y : u = x +:+ t +:+ y → occurs t u = true.
Proof. intros ->. apply occurs_middle. Qed.

Lemma tag_attribute_needs tag attr u a :
  a ∈ re.run (tag_attribute tag attr) u →
  occurs (attr +:+ "=" +:+ q +:+ "/") u = true.
Proof.
  intros [Hu Hl]%run_sound. unfold tag_attribute, absolute_path in Hl.
  simpl in Hl.
  destruct Hl as (t1 & r1 & Hc & -> & t2 & r2 & -> & _ & t3 & r3 & -> & _
                  & t4 & r4 & -> & -> & t5 & r5 & ->
                  & (t6 & t7 & -> & -> & _) & _).
  rewrite Hc in Hu.
  apply (occurs_split _ _ (("<" +:+ tag) +:+ t2 +:+ t3) (t7 +:+ r5 +:+ rest a)).
  rewrite Hu. by rewrite !app_assoc_str.
Qed.

Lemma any_attribute_needs u a :
  a ∈ re.run any_attribute u →
  occurs ("src=" +:+ q +:+ "/") u = true
  ∨ occurs ("href=" +:+ q +:+ "/") u = true
  ∨ occurs ("action=" +:+ q +:+ "/") u = true.
Proof.
  intros [Hu Hl]%run_sound. unfold any_attribute, absolute_path in Hl.
  simpl in Hl.
  destruct Hl as (t1 & r1 & Hc & Hattr & t2 & r2 & -> & -> & t3 & r3 & ->
                  & (t4 & t5 & -> & -> & _) & _).
  rewrite Hc in Hu.
  destruct Hattr as [->|[->| ->]]; [left | right; left | right; right];
    apply (occurs_split _ _ "" (t5 +:+ r3 +:+ rest a));
    rewrite Hu; by rewrite !app_assoc_str.
Qed.

Lemma base_tag_needs u a : a ∈ re.run base_tag u → occurs "<base" u = true.
Proof.
  intros [Hu Hl]%run_sound. unfold base_tag in Hl. simpl in Hl.
  destruct Hl as (t1 & r1 & Hc & -> & _).
  rewrite Hc in Hu. apply (occurs_split _ _ "" (r1 +:+ rest a)).
  rewrite Hu. by rewrite !app_assoc_str.
Qed.

Lemma css_url_needs u a : a ∈ re.run css_url u → occurs "url(/" u = true.
Proof.
  intros [Hu Hl]%run_sound. unfold css_url in Hl. simpl in Hl.
  destruct Hl as (t1 & r1 & Hc & -> & _).
  rewrite Hc in Hu. apply (occurs_split _ _ "" (r1 +:+ rest a)).
  rewrite Hu. by rewrite !app_assoc_str.
Qed.

(** Content without a root-absolute form is left as it is. *)
Lemma fix_html_content_unchanged s :
  root_relative s = true → fix_html_content s = s.
Proof.
  unfold root_relative, triggers. simpl.
  rewrite !andb_true_iff, !negb_true_iff.
  intros (Hsrc & Hhref & Haction & Hbase & Hurl & _).
  unfold fix_html_content.
  rewrite (sub_unchanged _ _ _ s (occurs_tail _)
             (tag_attribute_needs "script" "src") Hsrc).
  rewrite (sub_unchanged _ _ _ s (occurs_tail _)
             (tag_attribute_needs "link" "href") Hhref).
  rewrite (sub_unchanged _ _ _ s (occurs_tail _)
             (tag_attribute_needs "img" "src") Hsrc).
  rewrite (sub_unchanged any_attribute any_attribute_repl
             (λ u, occurs ("src=" +:+ q +:+ "/") u
                   || occurs ("href=" +:+ q +:+ "/") u
                   || occurs ("action=" +:+ q +:+ "/") u) s).
  - rewrite (sub_unchanged _ _ _ s (occurs_tail _) base_tag_needs Hbase).
    by rewrite (sub_unchanged _ _ _ s (occurs_tail _) css_url_needs Hurl).
  - intros c u [[H1 H2]%orb_false_iff H3]%orb_false_iff.
    by rewrite (occurs_tail _ _ _ H1), (occurs_tail _ _ _ H2),
      (occurs_tail _ _ _ H3).
  - intros u a [H|[H|H]]%any_attribute_needs; rewrite H;
      by rewrite ?orb_true_r.
  - by rewrite Hsrc, Hhref, Haction.
Qed.

(** C6, as the code has it.  On every content whose rewritten form holds no
    root-absolute form any more (no [src=], [href=] or [action=] followed
    by a quoted path that starts with a slash, no [<base], no [url(/]),
    rewriting a second time changes nothing. *)
Theorem fix_html_content_idempotent_when_relative s :
  root_relative (fix_html_content s) = true →
  fix_html_content (fix_html_content s) = fix_html_content s.
Proof. apply fix_html_content_unchanged. Qed.

End normalisation.

(** ** Normalisation on concrete markup *)

Section concrete_markup.
Import build_examples.

Example fix_index_html :
  fix_html_content index_html
  = "<head><link rel=" +:+ q +:+ "stylesheet" +:+ q +:+ " href=" +:+ q
      +:+ "./assets/app.css" +:+ q
      +:+ "></head><body><script type=" +:+ q +:+ "module" +:+ q +:+ " src="
      +:+ q +:+ "./assets/app.js" +:+ q +:+ "></script><img src=" +:+ q
      +:+ "./logo.png" +:+ q +:+ "><p style=" +:+ q
      +:+ "background:url(./bg.png)" +:+ q +:+ "></p></body>".
Proof. vm_compute. reflexivity. Qed.

Lemma fix_html_content_idempotent_when_relative_witness :
  fix_html_content (fix_html_content index_html) = fix_html_content index_html.
Proof.
  apply (fix_html_content_idempotent_when_relative index_html).
  vm_compute. reflexivity.
Defined.

(** What the rewriting does to the unclosed attribute, once and twice: the
    first pass takes everything up to the next quote for the path and so
    passes over the second reference, which the second pass then rewrites. *)
Example fix_unclosed_attribute :
  fix_html_content unclosed_attribute
  = "<a href=" +:+ q +:+ "./x>y</a><a href=" +:+ q +:+ "/z" +:+ q +:+ ">z</a>"
  ∧ fix_html_content (fix_html_content unclosed_attribute)
    = "<a href=" +:+ q +:+ "./x>y</a><a href=" +:+ q +:+ "./z" +:+ q +:+ ">z</a>".
Proof. vm_compute. split; reflexivity. Qed.

(** C6 as stated fails. *)
Lemma fix_html_content_not_idempotent :
  ¬ ∀ s, fix_html_content (fix_html_content s) = fix_html_content s.
Proof.
  intros Hidem. specialize (Hidem unclosed_attribute).
  vm_compute in Hidem. discriminate Hidem.
Qed.

End concrete_markup.


(** * Further properties of the release store *)

Import release_store_frames.

Section invariants.
Context (I : relation (gmap string object)) `{!Reflexive I, !Transitive I}.

Lemma invariant_ret {A} (R : A → Prop) (a : A) : R a → invariant I R (mret a).
Proof. intros HR st. split; [done|]. by intros a' [= <-]. Qed.

Lemma invariant_raise {A} (R : A → Prop) e : invariant I R (raise e).
Proof. intros st. split; [done|]. by intros a' [=]. Qed.

Lemma invariant_bind {A B} (R : A → Prop) (R' : B → Prop)
    (c : py bucket A) (f : A → py bucket B) :
  invariant I R c → (∀ a, R a → invariant I R' (f a)) →
  invariant I R' (c ≫= f).
Proof.
  intros Hc Hf st. unfold mbind, py_bind.
  destruct (Hc st) as [HI HR]. destruct (c st) as [[a|e] st1]; simpl in *.
  - destruct (Hf a (HR a eq_refl) st1) as [HI' HR'].
    split; [by etrans|done].
  - split; [done|]. by intros b [=].
Qed.

Lemma invariant_try {A} (R : A → Prop) (c : py bucket A) h :
  invariant I R c → (∀ e, invariant I R (h e)) →
  invariant I R (try_except c h).
Proof.
  intros Hc Hh st. unfold try_except.
  destruct (Hc st) as [HI HR]. destruct (c st) as [[a|e] st1]; simpl in *.
  - done.
  - destruct (Hh e st1) as [HI' HR']. split; [by etrans|done].
Qed.

Lemma invariant_weaken {A} (R R' : A → Prop) (c : py bucket A) :
  (∀ a, R a → R' a) → invariant I R c → invariant I R' c.
Proof. intros HRR Hc st. destruct (Hc st) as [HI HR]. split; eauto. Qed.

Lemma invariant_for_fold {A B} (J : B → Prop) (body : B → A → py bucket B)
    (l : list A) :
  (∀ acc x, x ∈ l → J acc → invariant I J (body acc x)) →
  ∀ acc, J acc → invariant I J (for_fold l acc body).
Proof.
  induction l as [|x l IH]; intros Hbody acc HJ; simpl.
  - by apply invariant_ret.
  - eapply invariant_bind.
    + apply Hbody; [by left | done].
    + intros acc' HJ'. apply IH; [|done].
      intros ?? Hin. apply Hbody. by right.
Qed.

Lemma invariant_api {A} (R : A → Prop) c
    (serve : gmap string object → outcome (A * gmap string object)) :
  (∀ m a m', serve m = Return (a, m') → I m m' ∧ R a) →
  invariant I R (api c serve).
Proof.
  intros Hserve st. unfold api.
  destruct (head (faults st)) as [[e|]|]; simpl;
    [split; [done | by intros ? [=]]|..];
    (destruct (serve (objects st)) as [[a m']|e] eqn:Hs; simpl;
     [destruct (Hserve _ _ _ Hs); split; [done | by intros ? [= <-]]
     |split; [done | by intros ? [=]]]).
Qed.

Lemma invariant_paginate Prefix :
  invariant I (λ pages : list (list string),
                 ∀ page key, page ∈ pages → key ∈ page →
                             String.prefix Prefix key = true)
    (paginate Prefix).
Proof.
  intros st. split; [done|]. unfold paginate. intros pages [= <-].
  intros page key Hpage Hkey.
  assert (key ∈ keys_with_prefix Prefix (objects st)) as Hin.
  { rewrite <-(concat_pages_of (keys_with_prefix Prefix (objects st))).
    apply elem_of_concat. eauto. }
  by apply elem_of_keys_with_prefix in Hin as [? _].
Qed.

Lemma invariant_fetch {A} (R : A → Prop) Prefix (page : A) :
  R page → invariant I R (fetch Prefix page).
Proof. intros HR. apply invariant_api. by intros m a m' [= <- <-]. Qed.

End invariants.

Section frames.
Implicit Types m : gmap string object.

Global Instance only_deletes_under_refl Prefix : Reflexive (only_deletes_under Prefix).
Proof. intros m k. done. Qed.

Global Instance only_deletes_under_trans Prefix : Transitive (only_deletes_under Prefix).
Proof.
  intros m1 m2 m3 H12 H23 k. destruct (H12 k) as [Ha Hb], (H23 k) as [Hc Hd].
  split.
  - intros Hk. by rewrite Hc, Ha.
  - intros o Ho. eauto.
Qed.

Global Instance same_outside_refl Prefix : Reflexive (same_outside Prefix).
Proof. intros m k. done. Qed.

Global Instance same_outside_trans Prefix : Transitive (same_outside Prefix).
Proof. intros m1 m2 m3 H12 H23 k Hk. by rewrite H23, H12. Qed.

Lemma only_deletes_under_wider Prefix r m m' :
  only_deletes_under (Prefix +:+ r) m m' → only_deletes_under Prefix m m'.
Proof.
  intros H k. destruct (H k) as [Ha Hb]. split; [|done].
  intros Hk. apply Ha. apply not_true_is_false. intros Hp.
  apply prefix_trans_app in Hp. congruence.
Qed.

Lemma only_deletes_same_outside Prefix m m' :
  only_deletes_under Prefix m m' → same_outside Prefix m m'.
Proof. intros H k Hk. by apply H. Qed.

Lemma delete_batch_only_deletes Prefix m (batch : list string) :
  (∀ key, key ∈ batch → String.prefix Prefix key = true) →
  only_deletes_under Prefix m (foldr delete m batch).
Proof.
  intros Hbatch k. split.
  - intros Hk. apply lookup_foldr_delete_not_elem_of.
    intros Hin. apply Hbatch in Hin. congruence.
  - intros o Ho. by apply lookup_foldr_delete_Some in Ho as [_ ?].
Qed.

Lemma clear_prefix_invariant Prefix :
  invariant (only_deletes_under Prefix) (λ _, True) (_clear_prefix Prefix).
Proof.
  unfold _clear_prefix.
  apply invariant_try; try apply _;
    [|intros; apply invariant_ret; try apply _; done].
  eapply invariant_bind; try apply _; [apply invariant_paginate; apply _|].
  intros pages Hpages.
  eapply (invariant_bind _
            (λ keys : list string,
               ∀ key, key ∈ keys → String.prefix Prefix key = true));
    try apply _.
  - apply invariant_for_fold; try apply _;
      [|by intros ? ?%not_elem_of_nil].
    intros acc page Hpage Hacc.
    eapply (invariant_bind _
              (λ contents : list string,
                 ∀ key, key ∈ contents → String.prefix Prefix key = true));
      try apply _.
    + apply invariant_fetch; try apply _. intros key. by apply Hpages.
    + intros contents Hcontents.
      apply invariant_for_fold; try apply _; [|done].
      intros acc' key Hkey Hacc'. apply invariant_ret; try apply _.
      intros key' [?|Hk]%elem_of_app; [auto|].
      apply list_elem_of_singleton in Hk as ->. by apply Hcontents.
  - intros keys Hkeys.
    case_bool_decide; [apply invariant_ret; try apply _; done|].
    apply invariant_for_fold; try apply _; [|done].
    intros u i _ _. apply invariant_api; try apply _.
    intros m a m' [= <- <-]. split; [|done].
    apply delete_batch_only_deletes. intros key Hkey. apply Hkeys.
    unfold slice in Hkey. apply elem_of_take in Hkey as (j & Hj & _).
    apply list_elem_of_lookup_2 in Hj.
    rewrite <-(take_drop i keys). apply elem_of_app. by right.
Qed.

End frames.

Section frame_theorems.
Import examples.
Implicit Types m : gmap string object.

Lemma invariant_relax {A} (I I' : relation (gmap string object)) (R : A → Prop)
    (c : py bucket A) :
  (∀ m m', I m m' → I' m m') → invariant I R c → invariant I' R c.
Proof. intros HII Hc st. destruct (Hc st). split; eauto. Qed.

Lemma list_versions_invariant (I : relation (gmap string object))
    `{!Reflexive I, !Transitive I} project :
  invariant I (λ _, True) (list_versions project).
Proof.
  unfold list_versions.
  apply invariant_try; try apply _; [|intros; apply invariant_raise; apply _].
  eapply (invariant_bind _ (λ _, True)); try apply _.
  { intros st. split; [done|done]. }
  intros pages _.
  eapply (invariant_bind _ (λ _, True)); try apply _;
    [|intros; by apply invariant_ret; try apply _].
  apply invariant_for_fold; try apply _; [|done].
  intros acc page _ _.
  eapply (invariant_bind _ (λ _, True)); try apply _.
  { by apply invariant_fetch; try apply _. }
  intros contents _. apply invariant_for_fold; try apply _; [|done].
  intros acc' p _ _. case_bool_decide; by apply invariant_ret; try apply _.
Qed.

(** In a run in which no request is rejected, [_clear_prefix] removes the
    objects whose key starts with the prefix, however many they are, and
    leaves every other object as it was. *)
Theorem clear_prefix_removes_exactly (Prefix : string) (st : bucket) :
  faults st = [] →
  ∃ st',
    _clear_prefix Prefix st = (Return tt, st')
    ∧ ∀ k, objects st' !! k
           = if String.prefix Prefix k then None else objects st !! k.
Proof.
  intros Hquiet.
  destruct (ok_clear_prefix Prefix (objects st) st eq_refl Hquiet) as [t Ht].
  eexists. split; [exact Ht|]. simpl. intros k. apply lookup_cleared.
Qed.

Lemma clear_prefix_removes_exactly_witness :
  ∃ st',
    _clear_prefix "shop/current/" (quiet shop) = (Return tt, st')
    ∧ ∀ k, objects st' !! k
           = if String.prefix "shop/current/" k then None
             else objects (quiet shop) !! k.
Proof.
  apply (clear_prefix_removes_exactly "shop/current/" (quiet shop)).
  reflexivity.
Defined.

(** Whatever the store answers, [_clear_prefix] ends normally, creates and
    changes no object, and removes none outside the prefix. *)
Theorem clear_prefix_only_deletes (Prefix : string) (st : bucket) :
  ∃ st',
    _clear_prefix Prefix st = (Return tt, st')
    ∧ only_deletes_under Prefix (objects st) (objects st').
Proof.
  destruct (clear_prefix_swallows Prefix st) as (st' & new & Hrun & _).
  exists st'. split; [done|].
  destruct (clear_prefix_invariant Prefix st) as [HI _].
  by rewrite Hrun in HI.
Qed.

(** Whatever the store answers, and whether it returns or raises,
    [activate_version] leaves every object outside [{project}/current/]
    as it was: the stored builds are never touched. *)
Theorem activate_version_same_outside_current
    (self : AWSManager) (project version : string) (st : bucket) :
  same_outside (project +:+ "/current/") (objects st)
    (objects (activate_version self project version st).2).
Proof.
  set (cur := project +:+ "/current/").
  assert (invariant (same_outside cur) (λ _, True)
            (activate_version self project version)) as Hinv;
    [|by destruct (Hinv st)].
  unfold activate_version. fold cur.
  apply invariant_try; try apply _; [|intros; apply invariant_raise; apply _].
  eapply (invariant_bind _ (λ _, True)); try apply _.
  { eapply invariant_relax; [|apply clear_prefix_invariant].
    apply only_deletes_same_outside. }
  intros _ _.
  eapply (invariant_bind _ (λ _, True)); try apply _;
    [|intros; by apply invariant_ret; try apply _].
  unfold _copy_s3_prefix.
  eapply (invariant_bind _ (λ _, True)); try apply _.
  { intros st0. split; [done|done]. }
  intros pages _. apply invariant_for_fold; try apply _; [|done].
  intros copied page _ _.
  eapply (invariant_bind _ (λ _, True)); try apply _.
  { by apply invariant_fetch; try apply _. }
  intros contents _. apply invariant_for_fold; try apply _; [|done].
  intros copied' key _ _.
  eapply (invariant_bind _ (λ _, True)); try apply _;
    [|intros; by apply invariant_ret; try apply _].
  apply invariant_api; try apply _.
  intros m a m'. destruct (m !! key) as [o|]; [|done].
  intros [= <- <-]. split; [|done].
  intros k Hk. apply lookup_insert_ne. intros <-.
  by rewrite prefix_app in Hk.
Qed.

(** Whatever the store answers, whatever [keep_count] is, and whether it
    returns or raises, [cleanup_old_versions] creates and changes no
    object and removes none outside [{project}/builds/]: what is published
    under [{project}/current/] stays. *)
Theorem cleanup_old_versions_only_deletes_builds
    (project : string) (keep_count : Z) (st : bucket) :
  only_deletes_under (project +:+ "/builds/") (objects st)
    (objects (cleanup_old_versions project keep_count st).2).
Proof.
  set (builds := project +:+ "/builds/").
  assert (invariant (only_deletes_under builds) (λ _, True)
            (cleanup_old_versions project keep_count)) as Hinv;
    [|by destruct (Hinv st)].
  unfold cleanup_old_versions.
  apply invariant_try; try apply _; [|intros; apply invariant_raise; apply _].
  eapply (invariant_bind _ (λ _, True)); try apply _.
  { apply list_versions_invariant; apply _. }
  intros versions _.
  case_bool_decide; [by apply invariant_ret; try apply _|].
  apply invariant_for_fold; try apply _; [|done].
  intros deleted version _ _.
  eapply (invariant_bind _ (λ _, True)); try apply _;
    [|intros; by apply invariant_ret; try apply _].
  eapply invariant_relax; [|apply clear_prefix_invariant].
  intros m m' Hdel. apply (only_deletes_under_wider builds (version +:+ "/")).
  unfold builds. by rewrite app_assoc_str.
Qed.

End frame_theorems.

Section read_only.
Implicit Types m : gmap string object.

Lemma reads_ret {A} m (a : A) E : reads m a E (mret a).
Proof. intros st Hm. split; [done | by left]. Qed.

Lemma reads_bind {A B} m (a : A) (b : B) E (c : py bucket A)
    (f : A → py bucket B) :
  reads m a E c → reads m b E (f a) → reads m b E (c ≫= f).
Proof.
  intros Hc Hf st Hm. unfold mbind, py_bind.
  destruct (Hc st Hm) as [Hobj Hres].
  destruct (c st) as [[a'|e] st1]; simpl in *.
  - destruct Hres as [[= ->]|(e & [=] & _)]. by apply Hf.
  - split; [done|]. right. destruct Hres as [[=]|(e' & [= <-] & He)]. eauto.
Qed.

Lemma reads_for_fold {A B} m E (body : B → A → py bucket B) (fv : B → A → B)
    (l : list A) :
  (∀ acc x, reads m (fv acc x) E (body acc x)) →
  ∀ acc, reads m (foldl fv acc l) E (for_fold l acc body).
Proof.
  intros Hbody. induction l as [|x l IH]; intros acc; simpl.
  - apply reads_ret.
  - eapply reads_bind; [apply Hbody | apply IH].
Qed.

Lemma reads_fetch {A} m Prefix (page : A) : reads m page (λ _, True) (fetch Prefix page).
Proof.
  intros st Hm. unfold fetch, api.
  destruct (head (faults st)) as [[e|]|]; simpl; split; eauto.
Qed.

Lemma reads_try_raise {A} m (a : A) E (c : py bucket A) (g : string → string) :
  reads m a E c →
  reads m a (λ msg, ∃ e, E e ∧ msg = g e) (try_except c (λ e, raise (g e))).
Proof.
  intros Hc st Hm. unfold try_except, raise.
  destruct (Hc st Hm) as [Hobj Hres].
  destruct (c st) as [[a'|e] st1]; simpl in *.
  - split; [done|]. left. by destruct Hres as [[= ->]|(e & [=] & _)].
  - split; [done|]. right. destruct Hres as [[=]|(e' & [= <-] & He)]. eauto.
Qed.

Lemma reads_list_versions project m :
  reads m (stored_versions project m)
    (λ msg, ∃ e, True ∧ msg = "Failed to list versions: " +:+ e)
    (list_versions project).
Proof.
  unfold list_versions.
  apply (reads_try_raise m _ (λ _, True) _ (λ e, "Failed to list versions: " +:+ e)).
  set (bp := project +:+ "/builds/").
  eapply (reads_bind _ (pages_of (entries_with_prefix bp slash m))).
  { intros st <-. split; [done | by left]. }
  eapply (reads_bind _
            (foldl (λ acc page, foldl (add_version bp) acc (common_prefixes_of page))
               [] (pages_of (entries_with_prefix bp slash m)))).
  - apply (reads_for_fold m _ _
             (λ acc page, foldl (add_version bp) acc (common_prefixes_of page))).
    intros acc page. eapply reads_bind; [apply reads_fetch|].
    apply (reads_for_fold m _ _ (add_version bp)).
    intros acc' p. unfold add_version, version_of_prefix.
    case_bool_decide; apply reads_ret.
  - rewrite foldl_add_version_pages, concat_pages_of. apply reads_ret.
Qed.

(** Whatever the store answers, [list_versions] changes no object.  When it
    returns, the list is in strictly descending order and holds exactly the
    non-empty, slash-free names [v] for which some object is stored under
    [{project}/builds/{v}/], so never a version without objects; otherwise
    it raises [Failed to list versions: ...]. *)
Theorem list_versions_reports_stored_versions (project : string) (st : bucket) :
  objects (list_versions project st).2 = objects st
  ∧ match (list_versions project st).1 with
    | Return versions =>
        StronglySorted (flip String.le) versions
        ∧ NoDup versions
        ∧ ∀ v, v ∈ versions ↔
               v ≠ "" ∧ contains_char slash v = false
               ∧ ∃ k, is_Some (objects st !! k)
                      ∧ String.prefix (project +:+ "/builds/" +:+ v +:+ "/") k
                        = true
    | Raise msg => ∃ e, msg = "Failed to list versions: " +:+ e
    end.
Proof.
  destruct (reads_list_versions project (objects st) st eq_refl)
    as [Hobj [Hres|(msg & Hres & e & _ & ->)]]; rewrite Hres;
    (split; [done|]); [|eauto].
  split; [apply sorted_stored_versions|].
  split; [apply NoDup_stored_versions|].
  intros v. apply elem_of_stored_versions.
Qed.

End read_only.

Section cleanup_under_faults.
Import examples.

Lemma bind_run {St A B} (c : py St A) (f : A → py St B) (st : St) :
  (c ≫= f) st
  = match c st with
    | (Return a, st') => f a st'
    | (Raise e, st') => (Raise e, st')
    end.
Proof. reflexivity. Qed.

(** The deletion loop of [cleanup_old_versions] cannot fail. *)
Lemma cleanup_loop_counts project (versions : list string) (n : nat) st :
  ∃ st',
    for_fold versions n
      (λ deleted_count version,
         _clear_prefix (project +:+ "/builds/" +:+ version +:+ "/") ;;
         mret (deleted_count + 1)) st
    = (Return (n + length versions), st').
Proof.
  revert n st. induction versions as [|v versions IH]; intros n st; simpl.
  - exists st. unfold mret, py_ret. f_equal. f_equal. lia.
  - unfold mbind at 1, py_bind at 1. unfold mbind at 1, py_bind at 1.
    destruct (clear_prefix_swallows (project +:+ "/builds/" +:+ v +:+ "/") st)
      as (st1 & new & -> & _).
    unfold mret at 1, py_ret at 1.
    destruct (IH (n + 1) st1) as [st' ->]. exists st'.
    f_equal. f_equal. lia.
Qed.

(** Whatever the store answers, [cleanup_old_versions] either raises
    because the listing was rejected, and then no object has changed, or
    returns the number of versions beyond [keep_count] in the stored list:
    the number of deletions it attempted, whether or not the store carried
    them out. *)
Theorem cleanup_old_versions_counts_attempts
    (project : string) (keep_count : Z) (st : bucket) :
  let versions := stored_versions project (objects st) in
  let run := cleanup_old_versions project keep_count st in
  (∃ e, run.1 = Raise ("Failed to cleanup versions: "
                         +:+ "Failed to list versions: " +:+ e)
        ∧ objects run.2 = objects st)
  ∨ run.1 = Return (if bool_decide (Z.of_nat (length versions) ≤ keep_count)%Z
                    then 0 else length (slice_from versions keep_count)).
Proof.
  intros versions run. unfold run, cleanup_old_versions, try_except.
  rewrite bind_run.
  destruct (reads_list_versions project (objects st) st eq_refl)
    as [Hobj [Hres|(msg & Hres & e & _ & ->)]].
  - right. destruct (list_versions project st) as [r st1]. simpl in *.
    subst r. fold versions. case_bool_decide; [done|].
    destruct (cleanup_loop_counts project (slice_from versions keep_count) 0 st1)
      as [st' ->]. done.
  - left. exists e. destruct (list_versions project st) as [r st1].
    simpl in *. subst r. done.
Qed.

(** A run in which the store rejects the deletion: one version is counted
    as deleted and is still listed afterwards. *)
Example cleanup_counts_rejected_deletion :
  let st := {| objects := shop;
               faults := [None; None; Some "AccessDenied"];
               trace := [] |} in
  let run := cleanup_old_versions "shop" 2 st in
  run.1 = Return 1
  ∧ (list_versions "shop" run.2).1
    = Return ["v20250103-000000"; "v20250102-000000"; "v20250101-000000"].
Proof. vm_compute. done. Qed.

End cleanup_under_faults.


(** ** Uploads under any fault schedule, and how the methods compose *)

Section upload_requests.
Import examples.
Implicit Types m : gmap string object.

(** One iteration of the upload loop. *)
Lemma upload_step {B} data key content_type cache_control (v : B) st :
  (upload_file data key content_type cache_control ;; mret v) st
  = match head (faults st) with
    | Some (Some e) =>
        (Raise e, {| objects := objects st; faults := tail (faults st);
                     trace := trace st ++ [(UploadFile key, Some e)] |})
    | _ =>
        (Return v,
         {| objects := <[key := {| body := data; ContentType := content_type;
                                   CacheControl := cache_control |}]> (objects st);
            faults := tail (faults st);
            trace := trace st ++ [(UploadFile key, None)] |})
    end.
Proof.
  unfold mbind, py_bind, upload_file, api.
  by destruct (head (faults st)) as [[e|]|].
Qed.

(** The upload loop: one request per file, stopped by the first rejection;
    what was stored before it stays. *)
Lemma upload_loop guess_type project version (files : list (string * string)) :
  ∀ (c : nat * nat) st,
    let run :=
      for_fold files c
        (λ counters file,
           upload_file file.2 (upload_key project version file)
             (_get_enhanced_content_type guess_type file.1)
             (_get_cache_control file.1) ;;
           mret (counters.1 + 1, counters.2 + String.length file.2)) st in
    ∃ new,
      trace run.2 = trace st ++ new
      ∧ Forall (λ entry, upload_phase entry.1) new
      ∧ match run.1 with
        | Return c' =>
            Forall served new ∧ length new = length files
            ∧ objects run.2 = uploaded guess_type project version (objects st) files
            ∧ c'.1 = c.1 + length files
        | Raise e =>
            ∃ pre call, new = pre ++ [(call, Some e)] ∧ Forall served pre
                        ∧ length pre < length files
                        ∧ objects run.2
                          = uploaded guess_type project version (objects st)
                              (take (length pre) files)
        end.
Proof.
  induction files as [|file files IH]; intros c st; cbv zeta; simpl for_fold.
  { exists []. rewrite app_nil_r. split_and!; try done; simpl; lia. }
  rewrite bind_run, upload_step.
  set (call := UploadFile (upload_key project version file)).
  destruct (head (faults st)) as [[e|]|] eqn:Hhead.
  - exists [(call, Some e)]. simpl. split; [done|].
    split; [by repeat constructor|].
    exists [], call. split_and!; try done. simpl. lia.
  - match goal with
    | |- context [for_fold files ?c1 ?body ?st1] =>
        destruct (IH c1 st1) as (new & Ht & HQ & Hr);
        destruct (for_fold files c1 body st1) as [[c'|e] st2]
    end; simpl in *; exists ((call, None) :: new);
      rewrite Ht, <-app_assoc; (split; [done|]);
      (split; [by constructor|]).
    + destruct Hr as (Hs & Hlen & Hobj & Hc).
      split_and!; [by constructor | simpl; by rewrite Hlen | done | simpl in *; lia].
    + destruct Hr as (pre & call' & -> & Hs & Hlen & Hobj).
      exists ((call, None) :: pre), call'.
      split_and!; [done | by constructor | simpl; lia | done].
  - match goal with
    | |- context [for_fold files ?c1 ?body ?st1] =>
        destruct (IH c1 st1) as (new & Ht & HQ & Hr);
        destruct (for_fold files c1 body st1) as [[c'|e] st2]
    end; simpl in *; exists ((call, None) :: new);
      rewrite Ht, <-app_assoc; (split; [done|]);
      (split; [by constructor|]).
    + destruct Hr as (Hs & Hlen & Hobj & Hc).
      split_and!; [by constructor | simpl; by rewrite Hlen | done | simpl in *; lia].
    + destruct Hr as (pre & call' & -> & Hs & Hlen & Hobj).
      exists ((call, None) :: pre), call'.
      split_and!; [done | by constructor | simpl; lia | done].
Qed.

(** Whatever the store answers, [deploy_version] sends upload requests
    only, one per file in the order of the tree, and stops at the first
    one that is rejected: it then raises [Failed to upload files: e] and
    the files stored before the rejection stay stored.  On an empty tree it
    raises without sending a request; it returns only when every file was
    stored, and then [uploaded_files] is the number of files. *)
Theorem deploy_version_stops_at_first_rejection
    (guess_type : string → option string) (self : AWSManager)
    (project version : string) (files : list (string * string)) (st : bucket) :
  let run := deploy_version guess_type self project version files st in
  ∃ new,
    trace run.2 = trace st ++ new
    ∧ Forall (λ entry, upload_phase entry.1) new
    ∧ match run.1 with
      | Return result =>
          files ≠ [] ∧ Forall served new ∧ length new = length files
          ∧ uploaded_files result = length files
          ∧ objects run.2 = uploaded guess_type project version (objects st) files
      | Raise msg =>
          (files = [] ∧ new = [] ∧ objects run.2 = objects st
           ∧ msg = "Failed to upload files: No files found in build directory")
          ∨ ∃ pre call e,
              new = pre ++ [(call, Some e)] ∧ Forall served pre
              ∧ length pre < length files
              ∧ msg = "Failed to upload files: " +:+ e
              ∧ objects run.2
                = uploaded guess_type project version (objects st)
                    (take (length pre) files)
      end.
Proof.
  intros run. unfold run, deploy_version, try_except.
  case_bool_decide as Hfiles.
  { exists []. rewrite app_nil_r. simpl. split_and!; try done. by left. }
  rewrite bind_run.
  destruct (upload_loop guess_type project version files (0, 0) st)
    as (new & Ht & HQ & Hr).
  unfold upload_key in Hr, Ht.
  match type of Ht with
  | context [for_fold files ?c ?body st] =>
      destruct (for_fold files c body st) as [[c'|e] st1] eqn:Hloop
  end; simpl in *.
  - exists new. split_and!; try done; by destruct Hr as (? & ? & ? & ?).
  - exists new. split_and!; try done. right.
    destruct Hr as (pre & call & -> & Hs & Hlen & Hobj).
    by exists pre, call, e.
Qed.

End upload_requests.

Section compositions.
Import examples.
Implicit Types m : gmap string object.

(** An activation on a store that rejects nothing. *)
Lemma ok_activate_version self project version m :
  ∃ m',
    ok_run (activate_version self project version) m
      {| activation_version := version;
         copied_files :=
           length (keys_with_prefix (version_prefix project version) m);
         activation_website_url := website_url_of self project |} m'
    ∧ (∀ rel, m' !! ((project +:+ "/current/") +:+ rel)
              = m !! (version_prefix project version +:+ rel))
    ∧ (∀ k, String.prefix (project +:+ "/current/") k = false →
            m' !! k = m !! k).
Proof.
  unfold version_prefix.
  set (src := project +:+ "/builds/" +:+ version +:+ "/").
  set (cur := project +:+ "/current/").
  assert (∀ r, String.prefix cur (src +:+ r) = false) as Hd1
    by (intros; apply builds_not_under_current).
  assert (∀ r, String.prefix src (cur +:+ r) = false) as Hd2
    by (intros; apply current_not_under_builds).
  pose proof (ok_clear_prefix cur m) as Hclear.
  pose proof (ok_copy_s3_prefix src cur (cleared cur m)) as Hcopy.
  assert (keys_with_prefix src (cleared cur m) = keys_with_prefix src m) as Hks.
  { apply keys_with_prefix_ext. intros k Hk.
    by rewrite lookup_cleared, (prefix_split _ _ Hk), Hd1. }
  rewrite Hks in Hcopy.
  exists (foldl (copy_step src cur) (cleared cur m) (keys_with_prefix src m)).
  split_and!.
  - unfold activate_version. apply ok_try. fold src cur.
    eapply ok_bind; [exact Hclear|].
    eapply ok_bind; [exact Hcopy|]. apply ok_ret.
  - clear Hclear Hcopy Hks. clearbody src cur.
    intros rel. rewrite lookup_copy_dest.
    + rewrite !lookup_cleared, prefix_app, Hd1.
      case_decide as Hin; [done|].
      rewrite elem_of_keys_with_prefix, prefix_app in Hin.
      destruct (m !! (src +:+ rel)) eqn:Hl; [|done].
      exfalso. apply Hin. eauto.
    + done.
    + intros key Hkey. by apply elem_of_keys_with_prefix in Hkey as [? _].
    + intros key Hkey. apply elem_of_keys_with_prefix in Hkey as [Hp Hs].
      assert (String.prefix cur key = false) as Hc
        by (by rewrite (prefix_split _ _ Hp), Hd1).
      by rewrite lookup_cleared, Hc.
  - clear Hclear Hcopy Hks. clearbody src cur.
    intros k Hk. rewrite lookup_copy_other by done.
    by rewrite lookup_cleared, Hk.
Qed.

(** The probe of [get_project_status] finds something exactly when an
    object is stored under the prefix. *)
Lemma probe_finds Prefix m :
  0 < length (take 1 (keys_with_prefix Prefix m)) ↔
  ∃ k, String.prefix Prefix k = true ∧ is_Some (m !! k).
Proof.
  destruct (keys_with_prefix Prefix m) as [|k ks] eqn:Hks; simpl.
  - split; [lia|]. intros (k & Hk).
    apply elem_of_keys_with_prefix in Hk. rewrite Hks in Hk.
    by apply not_elem_of_nil in Hk.
  - split; [|lia]. intros _. exists k.
    apply elem_of_keys_with_prefix. rewrite Hks. by left.
Qed.

Lemma ok_get_project_status self project m :
  let deployed :=
    bool_decide (0 < length (take 1 (keys_with_prefix (project +:+ "/current/") m))) in
  ok_run (get_project_status self project) m
    {| is_deployed := deployed;
       website_url := if deployed then Some (website_url_of self project) else None;
       status_bucket := Some (bucket_name self);
       status_region := Some (region self);
       error := None |} m.
Proof.
  intros deployed. unfold get_project_status. apply ok_try.
  eapply ok_bind; [by apply ok_api|]. apply ok_ret.
Qed.

Lemma keys_with_prefix_nil Prefix m :
  keys_with_prefix Prefix m = [] ↔
  ∀ k, String.prefix Prefix k = true → m !! k = None.
Proof.
  split.
  - intros Hks k Hk. destruct (m !! k) eqn:Hl; [|done].
    assert (k ∈ keys_with_prefix Prefix m) as Hin
      by (apply elem_of_keys_with_prefix; eauto).
    rewrite Hks in Hin. by apply not_elem_of_nil in Hin.
  - intros Hnone. destruct (keys_with_prefix Prefix m) as [|k ks] eqn:Hks; [done|].
    assert (k ∈ keys_with_prefix Prefix m) as Hin by (rewrite Hks; by left).
    apply elem_of_keys_with_prefix in Hin as [Hp [o Ho]].
    by rewrite (Hnone k Hp) in Ho.
Qed.

(** In a run in which no request is rejected, activating a version and then
    asking for the status reports the project as deployed exactly when an
    object is stored under [{project}/builds/{version}/].  There is no
    check that the version exists: for a label under which nothing is
    stored the activation still succeeds, with [copied_files = 0], and
    leaves nothing under [{project}/current/]. *)
Theorem activate_version_then_status
    (self : AWSManager) (project version : string) (st : bucket) :
  faults st = [] →
  ∃ result st1 status st2,
    activate_version self project version st = (Return result, st1)
    ∧ get_project_status self project st1 = (Return status, st2)
    ∧ error status = None
    ∧ is_deployed status = bool_decide (0 < copied_files result)
    ∧ (is_deployed status = true ↔
         ∃ k, String.prefix (project +:+ "/builds/" +:+ version +:+ "/") k = true
              ∧ is_Some (objects st !! k))
    ∧ (is_deployed status = false →
       ∀ k, String.prefix (project +:+ "/current/") k = true →
            objects st1 !! k = None).
Proof.
  intros Hquiet.
  destruct (ok_activate_version self project version (objects st))
    as (m' & Hrun & Hcur & _).
  destruct (Hrun st eq_refl Hquiet) as [t Ht].
  pose proof (ok_get_project_status self project m') as Hstatus.
  cbv zeta in Hstatus.
  destruct (Hstatus {| objects := m'; faults := []; trace := t |}
              eq_refl eq_refl) as [t' Ht'].
  clear Hstatus.
  eexists _, _, _, _. split; [exact Ht|]. split; [exact Ht'|]. simpl.
  unfold version_prefix in *.
  set (src := project +:+ "/builds/" +:+ version +:+ "/") in *.
  set (cur := project +:+ "/current/") in *.
  assert ((∃ k, String.prefix cur k = true ∧ is_Some (m' !! k)) ↔
          ∃ k, String.prefix src k = true ∧ is_Some (objects st !! k)) as Hsame.
  { split; intros (k & Hk & Hsome).
    - exists (src +:+ skip (String.length cur) k). split; [apply prefix_app|].
      by rewrite <-Hcur, <-(prefix_split _ _ Hk).
    - exists (cur +:+ skip (String.length src) k). split; [apply prefix_app|].
      by rewrite Hcur, <-(prefix_split _ _ Hk). }
  split; [done|]. split_and!.
  - apply bool_decide_ext. rewrite probe_finds, Hsame.
    destruct (keys_with_prefix src (objects st)) as [|k ks] eqn:Hks; simpl.
    + split; [|lia]. intros (k & Hk).
      apply elem_of_keys_with_prefix in Hk. rewrite Hks in Hk.
      by apply not_elem_of_nil in Hk.
    + split; [lia|]. intros _. exists k.
      apply elem_of_keys_with_prefix. rewrite Hks. by left.
  - by rewrite bool_decide_eq_true, probe_finds.
  - rewrite bool_decide_eq_false, probe_finds. intros Hnone k Hk.
    destruct (m' !! k) eqn:Hl; [|done]. exfalso. apply Hnone. eauto.
Qed.

Lemma activate_version_then_status_witness :
  ∃ result st1 status st2,
    activate_version tool "shop" "v20250101-000000" (quiet shop)
      = (Return result, st1)
    ∧ get_project_status tool "shop" st1 = (Return status, st2)
    ∧ error status = None
    ∧ is_deployed status = bool_decide (0 < copied_files result)
    ∧ (is_deployed status = true ↔
         ∃ k, String.prefix ("shop" +:+ "/builds/" +:+ "v20250101-000000" +:+ "/") k
              = true
              ∧ is_Some (objects (quiet shop) !! k))
    ∧ (is_deployed status = false →
       ∀ k, String.prefix ("shop" +:+ "/current/") k = true →
            objects st1 !! k = None).
Proof.
  apply (activate_version_then_status tool "shop" "v20250101-000000" (quiet shop)).
  reflexivity.
Defined.

(** The path of a rollback.  In a run in which no request is rejected, a
    version that [list_versions] reports can be activated: the activation
    copies at least one object and the status afterwards is deployed, with
    the site address. *)
Theorem activate_listed_version_is_deployed
    (self : AWSManager) (project version : string) (st : bucket)
    (versions : list string) :
  faults st = [] →
  (list_versions project st).1 = Return versions →
  version ∈ versions →
  ∃ result st1 status st2,
    activate_version self project version (list_versions project st).2
      = (Return result, st1)
    ∧ 0 < copied_files result
    ∧ get_project_status self project st1 = (Return status, st2)
    ∧ is_deployed status = true
    ∧ website_url status = Some (website_url_of self project).
Proof.
  intros Hquiet Hlist Hin.
  destruct (ok_list_versions project (objects st) st eq_refl Hquiet) as [t0 Ht0].
  rewrite Ht0 in Hlist |- *. simpl in Hlist. injection Hlist as <-.
  apply elem_of_stored_versions in Hin as (_ & _ & k & Hsome & Hk).
  destruct (ok_activate_version self project version (objects st))
    as (m' & Hrun & Hcur & _).
  destruct (Hrun {| objects := objects st; faults := []; trace := t0 |}
              eq_refl eq_refl) as [t Ht].
  pose proof (ok_get_project_status self project m') as Hstatus.
  cbv zeta in Hstatus.
  destruct (Hstatus {| objects := m'; faults := []; trace := t |}
              eq_refl eq_refl) as [t' Ht'].
  clear Hstatus.
  assert (k ∈ keys_with_prefix (version_prefix project version) (objects st))
    as Hkey by (by apply elem_of_keys_with_prefix).
  assert (0 < length (take 1 (keys_with_prefix (project +:+ "/current/") m')))
    as Hprobe.
  { apply probe_finds.
    exists ((project +:+ "/current/")
              +:+ skip (String.length (version_prefix project version)) k).
    split; [apply prefix_app|].
    by rewrite Hcur, <-(prefix_split _ _ Hk). }
  eexists _, _, _, _. simpl. split; [exact Ht|]. simpl.
  split; [destruct (keys_with_prefix _ (objects st));
          [by apply not_elem_of_nil in Hkey | simpl; lia]|].
  split; [exact Ht'|]. simpl. by rewrite bool_decide_true.
Qed.

Lemma activate_listed_version_is_deployed_witness :
  ∃ result st1 status st2,
    activate_version tool "shop" "v20250101-000000"
      (list_versions "shop" (quiet shop)).2
      = (Return result, st1)
    ∧ 0 < copied_files result
    ∧ get_project_status tool "shop" st1 = (Return status, st2)
    ∧ is_deployed status = true
    ∧ website_url status = Some (website_url_of tool "shop").
Proof.
  apply (activate_listed_version_is_deployed tool "shop" "v20250101-000000"
           (quiet shop)
           ["v20250103-000000"; "v20250102-000000"; "v20250101-000000"]).
  - reflexivity.
  - vm_compute. reflexivity.
  - do 2 right. left.
Defined.

(** An upload on a store that rejects nothing. *)
Lemma ok_deploy_version guess_type self project version
    (files : list (string * string)) m :
  files ≠ [] →
  ∃ result,
    ok_run (deploy_version guess_type self project version files) m result
      (uploaded guess_type project version m files)
    ∧ uploaded_files result = length files.
Proof.
  intros Hfiles. eexists. split.
  - unfold deploy_version. apply ok_try.
    rewrite bool_decide_false by done.
    eapply ok_bind; [|apply ok_ret].
    apply (ok_for_fold _
             (λ (c : nat * nat) (file : string * string),
                (c.1 + 1, c.2 + String.length file.2))
             (λ m file,
                <[upload_key project version file
                  := upload_object guess_type file]> m) (λ _, True)); [|done].
    intros file c m1 _ _. split; [|done].
    eapply ok_bind; [|apply ok_ret]. by apply ok_api.
  - simpl. apply (upload_counters files (0, 0)).
Qed.

Lemma uploaded_is_Some guess_type project version
    (files : list (string * string)) m k :
  is_Some (uploaded guess_type project version m files !! k) ↔
  is_Some (m !! k) ∨ k ∈ upload_key project version <$> files.
Proof.
  unfold uploaded. revert m.
  induction files as [|file files IH]; intros m; simpl.
  - rewrite elem_of_nil. tauto.
  - rewrite IH, lookup_insert_is_Some, elem_of_cons.
    destruct (decide (upload_key project version file = k)) as [<-|Hne].
    + split; [intros _; right; by left | intros _; left; by left].
    + split.
      * intros [[?|[_ ?]]|?]; [done | by left | right; by right].
      * intros [?|[?|?]]; [left; right; done | congruence | by right].
Qed.

(** In a run in which no request is rejected, after [deploy_version] of a
    non-empty tree under a label that is not empty and contains neither a
    slash nor a backslash (for a project name without a backslash),
    [list_versions] reports that label together with the versions it
    reported before, and no other. *)
Theorem deploy_version_then_list_versions
    (guess_type : string → option string) (self : AWSManager)
    (project version : string) (files : list (string * string)) (st : bucket) :
  faults st = [] →
  files ≠ [] →
  version ≠ "" →
  contains_char slash version = false →
  contains_char backslash version = false →
  contains_char backslash project = false →
  ∃ old st0 result st1 versions st2,
    list_versions project st = (Return old, st0)
    ∧ deploy_version guess_type self project version files st
      = (Return result, st1)
    ∧ list_versions project st1 = (Return versions, st2)
    ∧ ∀ v, v ∈ versions ↔ v = version ∨ v ∈ old.
Proof.
  intros Hquiet Hfiles Hne Hslash Hback Hproject.
  destruct (ok_list_versions project (objects st) st eq_refl Hquiet) as [t0 Ht0].
  destruct (ok_deploy_version guess_type self project version files
              (objects st) Hfiles) as (result & Hrun & _).
  destruct (Hrun st eq_refl Hquiet) as [t1 Ht1].
  set (m1 := uploaded guess_type project version (objects st) files) in *.
  destruct (ok_list_versions project m1
              {| objects := m1; faults := []; trace := t1 |} eq_refl eq_refl)
    as [t2 Ht2].
  eexists _, _, _, _, _, _. split; [exact Ht0|]. split; [exact Ht1|].
  split; [exact Ht2|].
  assert (∀ file, upload_key project version file
                  = version_prefix project version
                      +:+ replace_char backslash slash file.1) as Hkey.
  { intros file. by apply upload_key_under_prefix. }
  intros v. rewrite !elem_of_stored_versions. split.
  - intros (Hv & Hvs & k & Hsome & Hk).
    apply uploaded_is_Some in Hsome as [Hsome|Hin]; [right; eauto|].
    left. apply list_elem_of_fmap in Hin as (file & -> & _).
    apply (version_prefix_inj project v version
             (upload_key project version file)); [done..|].
    rewrite Hkey. apply prefix_app.
  - intros [->|(Hv & Hvs & k & Hsome & Hk)].
    + split; [done|]. split; [done|].
      destruct files as [|file files']; [done|].
      exists (upload_key project version file). split.
      * apply uploaded_is_Some. right. rewrite fmap_cons. by left.
      * rewrite Hkey. apply prefix_app.
    + split; [done|]. split; [done|]. exists k. split; [|done].
      apply uploaded_is_Some. by left.
Qed.

Lemma deploy_version_then_list_versions_witness :
  ∃ old st0 result st1 versions st2,
    list_versions "shop" (quiet shop) = (Return old, st0)
    ∧ deploy_version (λ _, None) tool "shop" "v20250104-000000"
        [("index.html", "<html></html>"); ("assets\app.js", "run()")]
        (quiet shop)
      = (Return result, st1)
    ∧ list_versions "shop" st1 = (Return versions, st2)
    ∧ ∀ v, v ∈ versions ↔ v = "v20250104-000000" ∨ v ∈ old.
Proof.
  apply (deploy_version_then_list_versions (λ _, None) tool "shop"
           "v20250104-000000"
           [("index.html", "<html></html>"); ("assets\app.js", "run()")]
           (quiet shop)); reflexivity || discriminate.
Defined.

(** In a run in which no request is rejected, for labels without a
    backslash and a non-empty tree whose relative paths stay distinct once
    their backslashes are turned into slashes: after [deploy_version]
    followed by [activate_version] of the same label, every file of the
    tree is served from [{project}/current/] at its normalised relative
    path, with its bytes, content type and cache-control directive.  When
    nothing was stored under the label before, [current/] holds nothing
    else and [copied_files] is the number of files. *)
Theorem deploy_version_then_activate_version
    (guess_type : string → option string) (self : AWSManager)
    (project version : string) (files : list (string * string)) (st : bucket) :
  faults st = [] →
  files ≠ [] →
  contains_char backslash project = false →
  contains_char backslash version = false →
  NoDup (replace_char backslash slash <$> files.*1) →
  ∃ up st1 act st2,
    deploy_version guess_type self project version files st = (Return up, st1)
    ∧ activate_version self project version st1 = (Return act, st2)
    ∧ (∀ file, file ∈ files →
         objects st2
           !! ((project +:+ "/current/") +:+ replace_char backslash slash file.1)
         = Some (upload_object guess_type file))
    ∧ ((∀ k, String.prefix (project +:+ "/builds/" +:+ version +:+ "/") k = true →
             objects st !! k = None) →
       copied_files act = length files
       ∧ ∀ rel, is_Some (objects st2 !! ((project +:+ "/current/") +:+ rel)) →
                ∃ file, file ∈ files ∧ rel = replace_char backslash slash file.1).
Proof.
  intros Hquiet Hfiles Hproject Hversion Hnd.
  destruct (ok_deploy_version guess_type self project version files
              (objects st) Hfiles) as (up & Hup & _).
  destruct (Hup st eq_refl Hquiet) as [t1 Ht1].
  set (m1 := uploaded guess_type project version (objects st) files) in *.
  destruct (ok_activate_version self project version m1)
    as (m2 & Hact & Hcur & _).
  destruct (Hact {| objects := m1; faults := []; trace := t1 |}
              eq_refl eq_refl) as [t2 Ht2].
  eexists _, _, _, _. split; [exact Ht1|]. split; [exact Ht2|]. simpl.
  fold (version_prefix project version).
  set (vp := version_prefix project version) in *.
  assert (∀ file, upload_key project version file
                  = vp +:+ replace_char backslash slash file.1) as Hkey.
  { intros file. by apply upload_key_under_prefix. }
  assert (upload_key project version <$> files
          = String.app vp <$> (replace_char backslash slash <$> files.*1))
    as Hkeys.
  { rewrite <-!list_fmap_compose. apply list_fmap_ext. intros _ file _.
    apply Hkey. }
  assert (NoDup (upload_key project version <$> files)) as Hndk.
  { rewrite Hkeys. by apply (NoDup_fmap_2 _). }
  split.
  - intros file Hfile. rewrite Hcur, <-Hkey.
    by apply (lookup_foldl_insert (upload_key project version)
                (upload_object guess_type)).
  - intros Hfresh.
    assert (∀ k, k ∈ keys_with_prefix vp m1 ↔
                 k ∈ upload_key project version <$> files) as Hin.
    { intros k. rewrite elem_of_keys_with_prefix. unfold m1.
      rewrite uploaded_is_Some. split.
      - intros [Hk [Hsome|Hfile]]; [|done].
        rewrite (Hfresh k Hk) in Hsome. by destruct Hsome.
      - intros Hfile. split; [|by right].
        apply list_elem_of_fmap in Hfile as (file & -> & _).
        rewrite Hkey. apply prefix_app. }
    split.
    + rewrite <-(length_fmap (upload_key project version) files).
      apply Permutation_length, NoDup_Permutation;
        [apply NoDup_keys_with_prefix | done | done].
    + intros rel. rewrite Hcur. intros Hsome.
      assert (vp +:+ rel ∈ keys_with_prefix vp m1) as Hk.
      { apply elem_of_keys_with_prefix. split; [apply prefix_app | done]. }
      apply Hin, list_elem_of_fmap in Hk as (file & Heq & Hfile).
      exists file. split; [done|].
      rewrite Hkey in Heq. by apply (inj (String.app vp)) in Heq.
Qed.

Lemma deploy_version_then_activate_version_witness :
  ∃ up st1 act st2,
    deploy_version (λ _, None) tool "shop" "v20250104-000000"
      [("index.html", "<html></html>"); ("assets\app.js", "run()")]
      (quiet shop)
    = (Return up, st1)
    ∧ activate_version tool "shop" "v20250104-000000" st1 = (Return act, st2)
    ∧ (∀ file,
         file ∈ [("index.html", "<html></html>"); ("assets\app.js", "run()")] →
         objects st2
           !! (("shop" +:+ "/current/") +:+ replace_char backslash slash file.1)
         = Some (upload_object (λ _, None) file))
    ∧ ((∀ k, String.prefix ("shop" +:+ "/builds/" +:+ "v20250104-000000" +:+ "/") k
             = true →
             objects (quiet shop) !! k = None) →
       copied_files act
       = length [("index.html", "<html></html>"); ("assets\app.js", "run()")]
       ∧ ∀ rel, is_Some (objects st2 !! (("shop" +:+ "/current/") +:+ rel)) →
                ∃ file,
                  file ∈ [("index.html", "<html></html>");
                          ("assets\app.js", "run()")]
                  ∧ rel = replace_char backslash slash file.1).
Proof.
  apply (deploy_version_then_activate_version (λ _, None) tool "shop"
           "v20250104-000000"
           [("index.html", "<html></html>"); ("assets\app.js", "run()")]
           (quiet shop)); try reflexivity; try discriminate.
  apply (bool_decide_unpack _). vm_compute. exact I.
Defined.

End compositions.


(** * Further properties of the build orchestrator *)

Import build_steps build_steps_spec.

(** ** Rewriting the pages of a build *)

Section pages.
Import build_examples.

(** [_fix_single_html_file] never raises and touches the one file only:
    a file that is there ends up holding the rewritten text, and nothing
    is written when the file is missing. *)
Lemma fix_single_html_file_run html_file w :
  ∃ w' new,
    _fix_single_html_file html_file w = (Return tt, w')
    ∧ fs w' = alter fix_html_content html_file (fs w)
    ∧ build_successful w' = build_successful w
    ∧ console w' = console w ++ new
    ∧ successes new = [].
Proof.
  unfold _fix_single_html_file, try_except, read_text, mbind, py_bind.
  destruct (fs w !! html_file) as [text|] eqn:Hfile.
  - case_bool_decide as Hchanged.
    + eexists _, _. split; [done|]. simpl. split_and!; [|done|done|done].
      apply map_eq. intros p. destruct (decide (p = html_file)) as [->|Hne].
      * by rewrite lookup_insert_eq, lookup_alter_eq, Hfile.
      * by rewrite lookup_insert_ne, lookup_alter_ne.
    + exists w, []. rewrite app_nil_r. split_and!; try done.
      apply map_eq. intros p. destruct (decide (p = html_file)) as [->|Hne].
      * rewrite lookup_alter_eq, Hfile. simpl. f_equal.
        by destruct (decide (fix_html_content text = text)).
      * by rewrite lookup_alter_ne.
  - eexists _, _. split; [done|]. simpl. split_and!; [|done|done|done].
    apply map_eq. intros p. destruct (decide (p = html_file)) as [->|Hne].
    + by rewrite lookup_alter_eq, Hfile.
    + by rewrite lookup_alter_ne.
Qed.

Lemma successes_app l1 l2 : successes (l1 ++ l2) = successes l1 ++ successes l2.
Proof. unfold successes. apply omap_app. Qed.

Lemma fix_each_html_file_run (html_files : list string) w :
  ∃ w' new,
    for_each html_files _fix_single_html_file w = (Return tt, w')
    ∧ fs w' = foldl (λ files p, alter fix_html_content p files) (fs w) html_files
    ∧ build_successful w' = build_successful w
    ∧ console w' = console w ++ new
    ∧ successes new = [].
Proof.
  unfold for_each. revert w.
  induction html_files as [|p html_files IH]; intros w; simpl.
  { exists w, []. by rewrite app_nil_r. }
  rewrite bind_run.
  destruct (fix_single_html_file_run p w) as (w1 & new1 & -> & Hfs1 & Hb1 & Hc1 & Hs1).
  destruct (IH w1) as (w2 & new2 & -> & Hfs2 & Hb2 & Hc2 & Hs2).
  exists w2, (new1 ++ new2). split; [done|].
  rewrite Hfs2, Hfs1, Hb2, Hb1, Hc2, Hc1, <-app_assoc, successes_app, Hs1, Hs2.
  done.
Qed.

Lemma lookup_foldl_alter (f : string → string) (l : list string)
    (files : gmap string string) p :
  NoDup l →
  foldl (λ files p, alter f p files) files l !! p
  = if bool_decide (p ∈ l) then f <$> files !! p else files !! p.
Proof.
  revert files. induction l as [|x l IH]; intros files Hnd; simpl.
  { done. }
  apply NoDup_cons in Hnd as [Hx Hnd]. rewrite IH by done.
  destruct (decide (p = x)) as [->|Hne].
  - rewrite (bool_decide_false (x ∈ l)) by done.
    rewrite bool_decide_true by (by left). apply lookup_alter_eq.
  - rewrite lookup_alter_ne by done.
    apply (f_equal (λ b : bool, if b then _ else _)).
    apply bool_decide_ext. rewrite elem_of_cons.
    split; [by right | by intros [?|?]].
Qed.

(** [_fix_all_asset_paths] never raises.  Given each page once, it leaves
    every page that is there holding its text rewritten by the asset-path
    rewrite, and every other file as it was.  When at least one page was
    found it closes with the one success line, which counts the pages
    found, whether or not any of them was changed or could be read. *)
Theorem fix_all_asset_paths_rewrites_each_page
    (html_files : list string) (w : world) :
  NoDup html_files →
  ∃ w' new,
    _fix_all_asset_paths html_files w = (Return tt, w')
    ∧ (∀ p, fs w' !! p
            = if bool_decide (p ∈ html_files)
              then fix_html_content <$> fs w !! p
              else fs w !! p)
    ∧ console w' = console w ++ new
    ∧ successes new
      = if bool_decide (html_files = []) then []
        else ["Fixed asset paths in " +:+ str_of_nat (length html_files)
                +:+ " HTML files"].
Proof.
  intros Hnd. unfold _fix_all_asset_paths, try_except.
  rewrite bind_run.
  destruct (fix_each_html_file_run html_files w)
    as (w1 & new1 & -> & Hfs1 & Hb1 & Hc1 & Hs1).
  destruct (decide (html_files = [])) as [Hnil|Hnil].
  - rewrite bool_decide_false by (by intros ?).
    rewrite (bool_decide_true (html_files = [])) by done.
    exists w1, new1. split; [done|]. split; [|done].
    intros p. rewrite Hfs1. by apply lookup_foldl_alter.
  - rewrite bool_decide_true by done.
    rewrite (bool_decide_false (html_files = [])) by done.
    eexists _, _. split; [done|]. simpl. split.
    { intros p. rewrite Hfs1. by apply lookup_foldl_alter. }
    rewrite Hc1, <-app_assoc. split; [done|].
    by rewrite successes_app, Hs1.
Qed.

Lemma fix_all_asset_paths_rewrites_each_page_witness :
  let w := {| fs := {[ "/work/app/dist/index.html" := index_html;
                       "/work/app/dist/assets/app.js" := "run()" ]};
              console := []; build_successful := true |} in
  let html_files := ["/work/app/dist/index.html"; "/work/app/dist/404.html"] in
  ∃ w' new,
    _fix_all_asset_paths html_files w = (Return tt, w')
    ∧ (∀ p, fs w' !! p
            = if bool_decide (p ∈ html_files)
              then fix_html_content <$> fs w !! p
              else fs w !! p)
    ∧ console w' = console w ++ new
    ∧ successes new
      = if bool_decide (html_files = []) then []
        else ["Fixed asset paths in " +:+ str_of_nat (length html_files)
                +:+ " HTML files"].
Proof.
  apply (fix_all_asset_paths_rewrites_each_page
           ["/work/app/dist/index.html"; "/work/app/dist/404.html"]).
  apply (bool_decide_unpack _). vm_compute. exact I.
Defined.

End pages.

(** ** Locating the project *)

Section locating.
Import PyPath build_examples.
Implicit Types s t r : string.

Lemma prefix_app_r t s r :
  String.prefix t s = true → String.prefix t (s +:+ r) = true.
Proof.
  intros Hp. rewrite (prefix_split _ _ Hp), app_assoc_str. apply prefix_app.
Qed.

Lemma occurs_app_r t s r : occurs t s = true → occurs t (s +:+ r) = true.
Proof.
  induction s as [|c s IH].
  - simpl. rewrite orb_false_r. intros Hp. apply occurs_prefix.
    by apply (prefix_app_r t "" r).
  - intros Hocc. apply orb_true_iff in Hocc as [Hp|Hocc].
    + apply occurs_prefix. by apply prefix_app_r.
    + rewrite app_cons. apply occurs_cons. by apply IH.
Qed.

Lemma search_package_json_run repo_dir (found : list string) w :
  let run := search_package_json repo_dir found w in
  fs run.2 = fs w
  ∧ match run.1 with
    | Return located =>
        ∃ skipped package_file rest,
          found = skipped ++ package_file :: rest
          ∧ Forall (λ f, py_in_str "node_modules" (joinpath repo_dir f) = true)
              skipped
          ∧ py_in_str "node_modules" (joinpath repo_dir package_file) = false
          ∧ located = (parent (joinpath repo_dir package_file),
                       replace_char backslash slash (parent package_file))
    | Raise e =>
        e = "No package.json found in repository"
        ∧ run.2 = w
        ∧ Forall (λ f, py_in_str "node_modules" (joinpath repo_dir f) = true)
            found
    end.
Proof.
  induction found as [|package_file found IH]; simpl.
  { done. }
  destruct (py_in_str "node_modules" (joinpath repo_dir package_file)) eqn:Hnm.
  - destruct IH as [Hfs IH]. split; [done|].
    destruct (search_package_json repo_dir found w) as [[located|e] w1];
      simpl in *.
    + destruct IH as (skipped & file & rest & -> & Hskipped & Hfile & ->).
      exists (package_file :: skipped), file, rest.
      split_and!; [done | by constructor | done | done].
    + destruct IH as (-> & -> & Hall). split_and!; [done..|by constructor].
  - split; [done|]. simpl. by exists [], package_file, found.
Qed.

Lemma find_package_json_fs repo_dir (found : list string) w :
  fs (_find_package_json repo_dir found w).2 = fs w.
Proof.
  unfold _find_package_json, path_exists. rewrite bind_run.
  case_bool_decide; [done|]. apply search_package_json_run.
Qed.

(** [_find_package_json] changes no file.  A manifest at the root wins,
    silently.  Otherwise the answer is the directory of the first manifest
    found whose whole path, the repository's own path included, does not
    contain [node_modules]; and it raises exactly when there is no such
    manifest. *)
Theorem find_package_json_first_outside_node_modules
    (repo_dir : string) (found : list string) (w : world) :
  let run := _find_package_json repo_dir found w in
  fs run.2 = fs w
  ∧ match run.1 with
    | Return located =>
        (is_Some (fs w !! joinpath repo_dir "package.json")
         ∧ located = (repo_dir, ".") ∧ run.2 = w)
        ∨ (fs w !! joinpath repo_dir "package.json" = None
           ∧ ∃ skipped package_file rest,
               found = skipped ++ package_file :: rest
               ∧ Forall (λ f, py_in_str "node_modules" (joinpath repo_dir f)
                              = true) skipped
               ∧ py_in_str "node_modules" (joinpath repo_dir package_file)
                 = false
               ∧ located = (parent (joinpath repo_dir package_file),
                            replace_char backslash slash (parent package_file)))
    | Raise e =>
        e = "No package.json found in repository"
        ∧ fs w !! joinpath repo_dir "package.json" = None
        ∧ Forall (λ f, py_in_str "node_modules" (joinpath repo_dir f) = true)
            found
    end.
Proof.
  intros run. unfold run, _find_package_json, path_exists.
  rewrite bind_run. case_bool_decide as Hroot.
  - split; [done|]. simpl. by left.
  - assert (fs w !! joinpath repo_dir "package.json" = None) as Hnone.
    { destruct (fs w !! _) eqn:Hl; [|done]. exfalso. apply Hroot. eauto. }
    destruct (search_package_json_run repo_dir found w) as [Hfs Hrun].
    split; [done|].
    destruct (search_package_json repo_dir found w) as [[located|e] w1];
      simpl in *.
    + right. by split.
    + by destruct Hrun as (-> & _ & Hall).
Qed.

(** When the path of the repository itself contains [node_modules] and
    there is no manifest at its root, [_find_package_json] finds none:
    every manifest below is skipped, whatever the sub-directory it is in,
    and the search raises. *)
Theorem find_package_json_repo_under_node_modules
    (repo_dir : string) (found : list string) (w : world) :
  py_in_str "node_modules" repo_dir = true →
  fs w !! joinpath repo_dir "package.json" = None →
  _find_package_json repo_dir found w
  = (Raise "No package.json found in repository", w).
Proof.
  intros Hrepo Hroot. unfold _find_package_json, path_exists.
  rewrite bind_run, Hroot, bool_decide_false by (by intros [? ?]).
  induction found as [|package_file found IH]; simpl; [done|].
  unfold py_in_str, joinpath in *. by rewrite occurs_app_r.
Qed.

Lemma find_package_json_repo_under_node_modules_witness :
  _find_package_json "/srv/node_modules.cache/shop"
    ["frontend/package.json"; "admin/package.json"]
    {| fs := {[ "/srv/node_modules.cache/shop/frontend/package.json" := "{}";
                "/srv/node_modules.cache/shop/admin/package.json" := "{}" ]};
       console := []; build_successful := false |}
  = (Raise "No package.json found in repository",
     {| fs := {[ "/srv/node_modules.cache/shop/frontend/package.json" := "{}";
                 "/srv/node_modules.cache/shop/admin/package.json" := "{}" ]};
        console := []; build_successful := false |}).
Proof.
  apply (find_package_json_repo_under_node_modules
           "/srv/node_modules.cache/shop"
           ["frontend/package.json"; "admin/package.json"]);
    reflexivity.
Defined.

(** The detector always returns and leaves the host as it found it. *)
Lemma detect_returns json_load project_dir w :
  ∃ detected,
    _detect_framework_and_build_dir json_load project_dir w
    = (Return detected, w).
Proof.
  unfold _detect_framework_and_build_dir, try_except, load_json_file.
  unfold mbind at 1, py_bind at 1.
  destruct (fs w !! _) as [text|]; [|by eexists].
  destruct (json_load text) as [manifest|e]; [|by eexists].
  destruct manifest as [| | | | |members]; try by eexists.
  unfold py_get, mbind, py_bind, mret, py_ret; simpl.
  destruct (members !! "dependencies") as [[| | | | |runtime]|]; simpl;
    try (by eexists);
    destruct (members !! "devDependencies") as [[| | | | |development]|];
    simpl; try (by eexists);
    repeat (match goal with
            | |- context [if ?b then _ else _] => destruct b
            end; try by eexists).
Qed.

(** [detect_project_directory] never raises and changes no file.  When a
    manifest is located, the answer is the framework the detector reports
    for its directory, with that directory; when none is, the answer is
    [react] with the directory that was given. *)
Theorem detect_project_directory_never_raises
    (json_load : string → json + string) (project_dir : string)
    (found : list string) (w : world) :
  ∃ framework actual w',
    detect_project_directory json_load project_dir found w
    = (Return (framework, actual), w')
    ∧ fs w' = fs w
    ∧ ((∃ relative build_dir,
          _find_package_json project_dir found w = (Return (actual, relative), w')
          ∧ _detect_framework_and_build_dir json_load actual w'
            = (Return (framework, build_dir), w'))
       ∨ (∃ e, (_find_package_json project_dir found w).1 = Raise e
               ∧ framework = "react" ∧ actual = project_dir)).
Proof.
  unfold detect_project_directory, try_except. rewrite bind_run.
  pose proof (find_package_json_fs project_dir found w) as Hfs.
  destruct (_find_package_json project_dir found w)
    as [[[actual relative]|e] w1] eqn:Hfind; simpl in *.
  - rewrite bind_run.
    destruct (detect_returns json_load actual w1) as [[framework build_dir] Hdet].
    rewrite Hdet. eexists _, _, _. split; [done|]. split; [done|].
    left. eauto.
  - eexists _, _, _. split; [done|]. split; [done|]. right. eauto.
Qed.

End locating.

(** ** Installing the dependencies *)

Section installing.
Import build_examples.
Variable subprocess_run :
  list string → string → nat → gmap string string →
  completion * gmap string string.
Variable which : string → option string.

(** What [run_command] does to the host, by how the child ends. *)
Lemma run_command_run command cwd timeout w :
  ∃ r w' new,
    run_command subprocess_run command cwd timeout w = (r, w')
    ∧ fs w' = (subprocess_run command cwd timeout (fs w)).2
    ∧ build_successful w' = build_successful w
    ∧ console w' = console w ++ new
    ∧ successes new = []
    ∧ match (subprocess_run command cwd timeout (fs w)).1 with
      | Exited0 => r = Return tt
      | _ => ∃ e, r = Raise e
      end.
Proof.
  unfold run_command, print_info, echo, modify, get_state, mbind, py_bind,
    mret, py_ret, raise.
  case_bool_decide; simpl;
    destruct (subprocess_run command cwd timeout (fs w)) as [[] files];
    simpl; eexists _, _, _; (split; [done|]); simpl;
    (split; [done|]); (split; [done|]);
    (split; [rewrite <-?app_assoc; reflexivity|]); (split; [done|]);
    by eauto.
Qed.

Lemma install_with_run announce command installed label project_dir w :
  ∃ w',
    install_with subprocess_run announce command installed label project_dir w
    = (Return (exited_0 (subprocess_run command project_dir 300 (fs w)).1), w')
    ∧ fs w' = (subprocess_run command project_dir 300 (fs w)).2.
Proof.
  unfold install_with, try_except.
  rewrite bind_run. unfold print_info at 1, echo at 1, modify at 1.
  rewrite bind_run.
  match goal with
  | |- context [run_command subprocess_run command project_dir 300 ?w1] =>
      destruct (run_command_run command project_dir 300 w1)
        as (r & w2 & new & -> & Hfs & _ & _ & _ & Hr)
  end.
  simpl in Hfs, Hr.
  destruct (subprocess_run command project_dir 300 (fs w)).1;
    [subst r | destruct Hr as [e ->]..]; simpl; eexists; by split.
Qed.

Lemma continues_ladder_step project_dir announce command installed label
    (tail : py world unit) commands :
  continues_ladder subprocess_run project_dir tail commands →
  continues_ladder subprocess_run project_dir
    (returned ← install_with subprocess_run announce command installed label
                  project_dir;
     if returned : bool then mret tt else tail)
    (command :: commands).
Proof.
  intros Htail w. cbv zeta. rewrite bind_run.
  destruct (install_with_run announce command installed label project_dir w)
    as (w1 & -> & Hfs1).
  simpl run_until_success.
  destruct (subprocess_run command project_dir 300 (fs w)) as [c files].
  simpl in Hfs1. simpl. subst files.
  destruct c; simpl; [by exists w1|..]; apply Htail.
Qed.

Lemma continues_ladder_yarn project_dir :
  continues_ladder subprocess_run project_dir
    (yarn ← check_command_exists which "yarn";
     returned ←
       (if yarn : bool
        then install_with subprocess_run "Installing dependencies with yarn..."
               ["yarn"; "install"] "Dependencies installed with yarn"
               "yarn install" project_dir
        else mret false);
     if returned : bool then mret tt
     else raise "All dependency installation methods failed")
    (if bool_decide (is_Some (which "yarn")) then [["yarn"; "install"]] else []).
Proof.
  intros w. cbv zeta. rewrite bind_run. unfold check_command_exists.
  destruct (which "yarn") as [path|].
  - rewrite bool_decide_true by eauto.
    rewrite bind_run. unfold print_info at 1, echo at 1, modify at 1.
    unfold mret at 1, py_ret at 1. rewrite bind_run.
    match goal with
    | |- context [install_with subprocess_run ?a ?c ?i ?l project_dir ?w1] =>
        destruct (install_with_run a c i l project_dir w1) as (w2 & -> & Hfs2)
    end.
    simpl in Hfs2 |- *.
    destruct (subprocess_run ["yarn"; "install"] project_dir 300 (fs w))
      as [c files].
    simpl in Hfs2. simpl. exists w2. by destruct c.
  - rewrite bool_decide_false by (by intros [? ?]).
    eexists. split; [reflexivity|done].
Qed.

(** [_install_dependencies_robust] is a first-success ladder.  The cache is
    cleaned first, and whether that works has no bearing on the outcome.
    Then [npm ci], [npm install], [npm install --legacy-peer-deps] and,
    only when [yarn] is on the path, [yarn install] run in this order, each
    on the files the one before left, up to the first that exits with
    status 0: the method then returns at once.  When none does, it raises,
    and the error says nothing of the causes: its text is always
    [Failed to install dependencies: All dependency installation methods
    failed]. *)
Theorem install_dependencies_first_success (project_dir : string) (w : world) :
  let cleaned :=
    (subprocess_run ["npm"; "cache"; "clean"; "--force"] project_dir 60 (fs w)).2 in
  let ladder :=
    run_until_success subprocess_run
      (install_commands (bool_decide (is_Some (which "yarn"))))
      project_dir 300 cleaned in
  let run := _install_dependencies_robust subprocess_run which project_dir w in
  fs run.2 = ladder.2
  ∧ run.1
    = if ladder.1 then Return tt
      else Raise ("Failed to install dependencies: "
                    +:+ "All dependency installation methods failed").
Proof.
  intros cleaned ladder run.
  assert (∃ w', run = (if ladder.1 then Return tt
                       else Raise ("Failed to install dependencies: "
                                     +:+ "All dependency installation methods failed"),
                       w')
                ∧ fs w' = ladder.2) as (w' & -> & Hfs).
  2:{ split; [done|]. by destruct ladder.1. }
  unfold run, ladder, _install_dependencies_robust, try_except at 1.
  clear run ladder.
  rewrite bind_run.
  assert (∃ w0,
            try_except
              (run_command subprocess_run ["npm"; "cache"; "clean"; "--force"]
                 project_dir 60) (λ _, mret tt) w
            = (Return tt, w0) ∧ fs w0 = cleaned) as (w0 & -> & Hfs0).
  { unfold try_except.
    destruct (run_command_run ["npm"; "cache"; "clean"; "--force"]
                project_dir 60 w) as (r & w0 & new & -> & Hfs & _ & _ & _ & Hr).
    exists w0. split; [|done].
    destruct (subprocess_run _ _ _ _).1; [by subst r | by destruct Hr as [e ->]..]. }
  pose proof (continues_ladder_yarn project_dir) as Hyarn.
  apply (continues_ladder_step project_dir
           "Installing dependencies with legacy peer deps..."
           ["npm"; "install"; "--legacy-peer-deps"]
           "Dependencies installed with legacy peer deps"
           "npm install --legacy-peer-deps") in Hyarn.
  apply (continues_ladder_step project_dir
           "Installing dependencies with npm install..." ["npm"; "install"]
           "Dependencies installed with npm install" "npm install") in Hyarn.
  apply (continues_ladder_step project_dir
           "Installing dependencies with npm ci..." ["npm"; "ci"]
           "Dependencies installed with npm ci" "npm ci") in Hyarn.
  destruct (Hyarn w0) as (w1 & Hrun & Hfs). cbv zeta in Hrun.
  unfold install_commands. rewrite <-Hfs0. clear Hyarn. simpl app.
  set (L := run_until_success subprocess_run _ project_dir 300 (fs w0)) in *.
  clearbody L.
  match goal with
  | |- context [let (o, st') := ?t in _] =>
      destruct t as [r w1'] eqn:Hrest
  end.
  injection Hrun as -> ->. exists w1.
  by destruct L as [[] files].
Qed.

End installing.

(** ** Preparing a project *)

Section preparing.
Import PyPath build_examples.
Variable subprocess_run :
  list string → string → nat → gmap string string →
  completion * gmap string string.
Variable json_load : string → json + string.

(** A [try] block that ends by announcing, running and reporting one
    command, under a handler that only prints: it never raises, and the
    files are those the child left. *)
Lemma guarded_command announce command cwd timeout done_msg
    (handler : string → string) w :
  ∃ w',
    try_except
      (print_info announce ;;
       run_command subprocess_run command cwd timeout ;;
       print_success done_msg)
      (λ e, print_warning (handler e)) w
    = (Return tt, w')
    ∧ fs w' = (subprocess_run command cwd timeout (fs w)).2
    ∧ build_successful w' = build_successful w.
Proof.
  unfold try_except. rewrite bind_run.
  unfold print_info at 1, echo at 1, modify at 1. rewrite bind_run.
  match goal with
  | |- context [run_command subprocess_run command cwd timeout ?w1] =>
      destruct (run_command_run subprocess_run command cwd timeout w1)
        as (r & w2 & new & -> & Hfs & Hflag & _ & _ & Hr)
  end.
  simpl in Hfs, Hflag, Hr.
  destruct (subprocess_run command cwd timeout (fs w)).1;
    [subst r | destruct Hr as [e ->]..]; simpl; eexists; by split.
Qed.

(** Stepping through a [try] block. *)
Lemma try_info {A} message (k : py world A) h w :
  try_except (print_info message ;; k) h w
  = try_except k h
      {| fs := fs w; console := console w ++ [(INFO, message)];
         build_successful := build_successful w |}.
Proof. reflexivity. Qed.

Lemma try_load {A} path (k : json → py world A) h w :
  try_except (value ← load_json_file json_load path; k value) h w
  = match fs w !! path with
    | None => h ("File not found: " +:+ path) w
    | Some text =>
        match json_load text with
        | inl value => try_except (k value) h w
        | inr e => h ("Invalid JSON in " +:+ path +:+ ": " +:+ e) w
        end
    end.
Proof.
  unfold try_except, load_json_file. rewrite bind_run.
  destruct (fs w !! path) as [text|]; [|done].
  by destruct (json_load text).
Qed.

Lemma try_get {A} d key fallback (k : json → py world A) h w :
  try_except (value ← py_get d key fallback; k value) h w
  = match d with
    | JObject members => try_except (k (default fallback (members !! key))) h w
    | _ => h "object has no attribute 'get'" w
    end.
Proof. by destruct d. Qed.

Lemma try_unpack {A} d (k : gmap string json → py world A) h w :
  try_except (members ← unpack d; k members) h w
  = match d with
    | JObject members => try_except (k members) h w
    | _ => h "argument after ** must be a mapping" w
    end.
Proof. by destruct d. Qed.

Lemma try_warn label e w :
  ∃ w', print_warning (label +:+ e) w = (Return tt, w')
        ∧ fs w' = fs w ∧ build_successful w' = build_successful w.
Proof. by eexists. Qed.

(** [_prepare_react_project] never raises: whatever goes wrong, a missing
    or malformed manifest or a failed installation, ends as a warning.  It
    runs at most one child process, [npm install] of the packages that are
    missing ([react] and [react-dom] unless [react] is declared,
    [react-scripts] unless [react-scripts] or [vite] is), and none when
    nothing is missing or the manifest cannot be read. *)
Theorem prepare_react_project_never_raises (project_dir : string) (w : world) :
  ∃ w',
    _prepare_react_project subprocess_run json_load project_dir w
    = (Return tt, w')
    ∧ build_successful w' = build_successful w
    ∧ fs w'
      = match fs w !! joinpath project_dir "package.json" with
        | None => fs w
        | Some text =>
            match json_load text with
            | inr _ => fs w
            | inl manifest =>
                match merged_dependencies manifest with
                | None => fs w
                | Some declared =>
                    let missing := missing_react_packages declared in
                    if bool_decide (missing = []) then fs w
                    else (subprocess_run (["npm"; "install"] ++ missing)
                            project_dir 180 (fs w)).2
                end
            end
        end.
Proof.
  unfold _prepare_react_project.
  rewrite try_info, try_load. simpl fs.
  destruct (fs w !! joinpath project_dir "package.json") as [text|];
    [|by eexists].
  destruct (json_load text) as [manifest|e]; [|by eexists].
  rewrite try_get.
  destruct manifest as [| | | | |members]; try by eexists.
  rewrite try_unpack. unfold merged_dependencies, dependency_group.
  destruct (members !! "dependencies") as [[| | | | |runtime]|]; simpl default;
    cbv beta iota; try (by eexists); rewrite try_get, try_unpack;
    destruct (members !! "devDependencies") as [[| | | | |development]|];
    simpl default; cbv beta iota; try (by eexists); cbv zeta.
  all: rewrite !py_contains_union; unfold missing_react_packages;
    simpl (Some _ ≫= _);
    match goal with
    | |- context [bool_decide ("react" ∈ ?D)] => generalize D; intros declared
    end;
    rewrite (bool_decide_ext ("react-scripts" ∈ declared ∨ "vite" ∈ declared)
               (bool_decide ("react-scripts" ∈ declared)
                || bool_decide ("vite" ∈ declared)))
      by (rewrite orb_True, !bool_decide_spec; tauto);
    destruct (bool_decide ("react" ∈ declared));
    destruct (bool_decide ("react-scripts" ∈ declared));
    destruct (bool_decide ("vite" ∈ declared));
    simpl; try (by eexists);
    edestruct guarded_command as (w' & Hrun & Hfs & Hflag);
    exists w'; (split; [apply Hrun|]); by split.
Qed.

(** [_create_optimized_vite_config] on a host whose writes succeed. *)
Lemma create_optimized_vite_config_run project_dir
    (dependencies : gmap string json) (declared : gset string) w :
  (∀ key, py_contains key dependencies = bool_decide (key ∈ declared)) →
  ∃ w',
    _create_optimized_vite_config project_dir dependencies w = (Return tt, w')
    ∧ fs w' = <[joinpath project_dir "vite.config.js"
                := optimized_config declared]> (fs w)
    ∧ build_successful w' = build_successful w.
Proof.
  intros Hdeclared.
  unfold _create_optimized_vite_config, optimized_config, plugin_declared.
  rewrite !Hdeclared.
  destruct (bool_decide ("react" ∈ declared));
    destruct (bool_decide ("@vitejs/plugin-react" ∈ declared));
    destruct (bool_decide ("vue" ∈ declared));
    destruct (bool_decide ("@vitejs/plugin-vue" ∈ declared));
    by eexists.
Qed.

(** The end of the [try] block of [_prepare_vite_project]. *)
Lemma install_then_configure project_dir (missing : list string)
    (dependencies : gmap string json) (declared : gset string) label w :
  (∀ key, py_contains key dependencies = bool_decide (key ∈ declared)) →
  ∃ w',
    try_except
      ((if bool_decide (missing ≠ [])
        then
          print_info ("Installing missing dependencies: " +:+ join ", " missing) ;;
          run_command subprocess_run (["npm"; "install"; "--save-dev"] ++ missing)
            project_dir 180 ;;
          print_success "Missing dependencies installed"
        else mret tt) ;;
       _create_optimized_vite_config project_dir dependencies)
      (λ e, print_warning (label +:+ e)) w
    = (Return tt, w')
    ∧ build_successful w' = build_successful w
    ∧ fs w'
      = if bool_decide (missing = [])
        then <[joinpath project_dir "vite.config.js"
               := optimized_config declared]> (fs w)
        else
          let child :=
            subprocess_run (["npm"; "install"; "--save-dev"] ++ missing)
              project_dir 180 (fs w) in
          match child.1 with
          | Exited0 =>
              <[joinpath project_dir "vite.config.js"
                := optimized_config declared]> child.2
          | _ => child.2
          end.
Proof.
  intros Hdeclared. unfold try_except. rewrite bind_run.
  destruct (decide (missing = [])) as [Hnil|Hnil].
  - rewrite bool_decide_false by (by intros ?).
    rewrite (bool_decide_true (missing = [])) by done.
    unfold mret at 1, py_ret at 1.
    destruct (create_optimized_vite_config_run project_dir dependencies
                declared w Hdeclared) as (w' & -> & Hfs & Hflag).
    by exists w'.
  - rewrite bool_decide_true by done.
    rewrite (bool_decide_false (missing = [])) by done.
    rewrite bind_run. unfold print_info at 1, echo at 1, modify at 1.
    rewrite bind_run.
    match goal with
    | |- context [run_command subprocess_run ?c project_dir 180 ?w1] =>
        destruct (run_command_run subprocess_run c project_dir 180 w1)
          as (r & w2 & new & -> & Hfs & Hflag & _ & _ & Hr)
    end.
    simpl in Hfs, Hflag, Hr. cbv zeta.
    destruct (subprocess_run _ project_dir 180 (fs w)) as [c files].
    simpl in Hfs, Hr. simpl.
    destruct c; [subst r | destruct Hr as [e ->]..]; simpl;
      try (eexists; split; [done|]; by split).
    match goal with
    | |- context [_create_optimized_vite_config project_dir dependencies ?w3] =>
        destruct (create_optimized_vite_config_run project_dir dependencies
                    declared w3 Hdeclared) as (w' & -> & Hfs' & Hflag')
    end.
    exists w'. split; [done|]. simpl in *. split; [congruence|].
    by rewrite Hfs', Hfs.
Qed.

(** The list of missing packages as the code builds it. *)
Lemma missing_vite_code (declares : string → bool) (declared : gset string)
    (typed : bool) :
  (∀ key, declares key = bool_decide (key ∈ declared)) →
  (let missing_deps : list string := [] in
   let missing_deps :=
     if negb (declares "vite")
     then missing_deps ++ ["vite@latest"] else missing_deps in
   let missing_deps :=
     if declares "react" && negb (declares "@vitejs/plugin-react")
     then missing_deps ++ ["@vitejs/plugin-react@latest"] else missing_deps in
   let missing_deps :=
     if declares "vue" && negb (declares "@vitejs/plugin-vue")
     then missing_deps ++ ["@vitejs/plugin-vue@latest"] else missing_deps in
   let missing_deps :=
     if typed && negb (declares "typescript")
     then missing_deps ++ ["typescript@latest"; "@types/node@latest"]
     else missing_deps in
   missing_deps)
  = missing_vite_packages declared typed.
Proof.
  intros Hdeclares. rewrite !Hdeclares. unfold missing_vite_packages.
  destruct (bool_decide ("vite" ∈ declared));
    destruct (bool_decide ("react" ∈ declared));
    destruct (bool_decide ("@vitejs/plugin-react" ∈ declared));
    destruct (bool_decide ("vue" ∈ declared));
    destruct (bool_decide ("@vitejs/plugin-vue" ∈ declared));
    destruct (bool_decide ("typescript" ∈ declared));
    destruct typed; reflexivity.
Qed.

Lemma try_in_json {A} needle value (k : bool → py world A) h w :
  try_except (found ← py_in_json needle value; k found) h w
  = match py_in_json (St := unit) needle value tt with
    | (Return found, _) => try_except (k found) h w
    | (Raise e, _) => h e w
    end.
Proof. by destruct value. Qed.

(** [_prepare_vite_project] never raises: a missing or malformed manifest
    and a failed installation end as a warning.  It runs at most one child
    process, [npm install --save-dev] of the packages that are missing.
    Unless it gave up before (the manifest cannot be read, or the
    installation failed), it then writes [vite.config.js], replacing any
    file that was there.  The configuration written is computed from the
    packages the manifest declared before the installation: a plugin that
    this very preparation installs is not listed in it. *)
Theorem prepare_vite_project_writes_config (project_dir : string) (w : world) :
  ∃ w',
    _prepare_vite_project subprocess_run json_load project_dir w
    = (Return tt, w')
    ∧ build_successful w' = build_successful w
    ∧ fs w'
      = match fs w !! joinpath project_dir "package.json" with
        | None => fs w
        | Some text =>
            match json_load text with
            | inr _ => fs w
            | inl manifest =>
                match merged_dependencies manifest,
                      build_script_mentions "typescript" manifest with
                | Some declared, Some typed =>
                    let config := joinpath project_dir "vite.config.js" in
                    let missing := missing_vite_packages declared typed in
                    if bool_decide (missing = [])
                    then <[config := optimized_config declared]> (fs w)
                    else
                      let child :=
                        subprocess_run
                          (["npm"; "install"; "--save-dev"] ++ missing)
                          project_dir 180 (fs w) in
                      match child.1 with
                      | Exited0 =>
                          <[config := optimized_config declared]> child.2
                      | _ => child.2
                      end
                | _, _ => fs w
                end
            end
        end.
Proof.
  unfold _prepare_vite_project.
  rewrite try_info, try_load. simpl fs.
  destruct (fs w !! joinpath project_dir "package.json") as [text|];
    [|by eexists].
  destruct (json_load text) as [manifest|e]; [|by eexists].
  rewrite try_get.
  destruct manifest as [| | | | |members]; try by eexists.
  rewrite try_unpack.
  unfold merged_dependencies, dependency_group, build_script_mentions.
  destruct (members !! "dependencies") as [[| | | | |runtime]|]; simpl default;
    cbv beta iota; try (by eexists); rewrite try_get, try_unpack;
    destruct (members !! "devDependencies") as [[| | | | |development]|];
    simpl default; cbv beta iota; try (by eexists); cbv zeta.
  all: rewrite try_get; simpl (Some _ ≫= _);
    destruct (members !! "scripts") as [[| | | | |scripts]|]; simpl default;
    cbv beta iota; try (by eexists); rewrite try_get; cbv beta iota;
    rewrite ?lookup_empty;
    try (destruct (scripts !! "build") as [[| |n|t|items|m]|]);
    simpl default; rewrite try_in_json; simpl (py_in_json _ _ _);
    cbv beta iota; try (by eexists).
  all: edestruct (install_then_configure project_dir)
         as (w' & Hrun & Hflag & Hfs);
    [intros key; apply py_contains_union|];
    exists w'; (split; [apply Hrun|]); (split; [done|]); rewrite Hfs;
    clear Hrun Hfs Hflag;
    match goal with
    | |- (if bool_decide (?C = []) then _ else _) = _ => set (missing := C)
    end;
    unfold mret, py_ret; cbv beta iota zeta; simpl fs;
    match goal with
    | |- _ = (if bool_decide (missing_vite_packages ?D ?typed = []) then _ else _) =>
        assert (missing = missing_vite_packages D typed) as ->;
        [|reflexivity];
        match eval unfold missing in missing with
        | context [py_contains "vite" (?dev ∪ ?run)] =>
            exact (missing_vite_code (λ key, py_contains key (dev ∪ run))
                     D typed (λ key, py_contains_union key run dev))
        end
    end.
Qed.

End preparing.

(** ** The build ladder, whatever the child processes do *)

Section ladder_outcome.
Import PyPath build_examples.
Variable subprocess_run :
  list string → string → nat → gmap string string →
  completion * gmap string string.

Lemma announced_run_block announce command project_dir done_msg label :
  ladder_block
    (try_except
       (print_info announce ;;
        run subprocess_run command project_dir ;;
        set_build_successful true ;;
        print_success done_msg)
       (λ e, print_warning (label +:+ e))).
Proof.
  intros w. unfold try_except. rewrite bind_run.
  unfold print_info at 1, echo at 1, modify at 1. rewrite bind_run.
  unfold run.
  match goal with
  | |- context [run_command subprocess_run command project_dir 600 ?w1] =>
      destruct (run_command_run subprocess_run command project_dir 600 w1)
        as (r & w2 & new & -> & Hfs & Hflag & Hcons & Hsucc & Hr)
  end.
  simpl in Hfs, Hflag, Hcons, Hr.
  destruct (subprocess_run command project_dir 600 (fs w)).1;
    [subst r | destruct Hr as [e ->]..]; simpl;
    eexists _, _; (split; [done|]); simpl; rewrite Hcons, <-!app_assoc;
    (split; [done|]).
  - right. split; [done|]. eexists _, _. rewrite !app_assoc. split; [done|].
    by rewrite successes_app, Hsucc.
  - left. split; [done|]. by rewrite !successes_app, Hsucc.
  - left. split; [done|]. by rewrite !successes_app, Hsucc.
  - left. split; [done|]. by rewrite !successes_app, Hsucc.
Qed.

Lemma framework_specific_build_block project_dir framework :
  ladder_block (framework_specific_build subprocess_run project_dir framework).
Proof.
  unfold framework_specific_build.
  repeat (destruct (String.eqb framework _); [apply announced_run_block|]).
  apply announced_run_block.
Qed.

Lemma build_without_config_block project_dir :
  ladder_block (build_without_config subprocess_run project_dir).
Proof.
  intros w. unfold build_without_config, try_except.
  unfold mbind, py_bind, rename, print_info, print_success, print_warning,
    echo, modify, set_build_successful, path_exists, mret, py_ret, with_fs;
    simpl.
  destruct (fs w !! joinpath project_dir "vite.config.js")
    as [text|] eqn:Hconfig; simpl; rewrite ?Hconfig; simpl; unfold run;
    match goal with
    | |- context [run_command subprocess_run ?c ?d ?t ?w1] =>
        destruct (run_command_run subprocess_run c d t w1)
          as (r & w2 & new & -> & Hfs & Hflag & Hcons & Hsucc & Hr)
    end;
    simpl in Hfs, Hflag, Hcons, Hr;
    destruct (subprocess_run _ _ _ _).1;
    first [subst r | destruct Hr as [e ->]];
    simpl;
    destruct (fs w2 !! joinpath project_dir "vite.config.js.backup")
      as [saved|] eqn:Hbackup; simpl; rewrite ?Hbackup; simpl;
    eexists _, _; (split; [done|]); simpl; rewrite Hcons, <-?app_assoc;
    (split; [done|]);
    first [ left; split; [done|]; by rewrite !successes_app, Hsucc
          | right; split; [done|]; eexists _, _; rewrite !app_assoc;
            split; [done|]; by rewrite ?successes_app, Hsucc ].
Qed.

Lemma unless_built_keeps applies block w0 w :
  ladder_block block → ladder_state w0 w →
  ∃ w', unless_built applies block w = (Return tt, w') ∧ ladder_state w0 w'.
Proof.
  intros Hblock (new & Hcons & Hstate).
  unfold unless_built, get_build_successful. rewrite bind_run.
  destruct Hstate as [[Hflag Hsucc]|[Hflag Hlast]]; rewrite Hflag; simpl.
  - destruct applies; simpl.
    + destruct (Hblock w) as (w' & new' & -> & Hcons' & Hstate').
      exists w'. split; [done|]. exists (new ++ new').
      rewrite Hcons', Hcons, <-app_assoc. split; [done|].
      destruct Hstate' as [[Hflag' Hsucc']|[Hflag' (before & message & -> & Hb)]].
      * left. split; [congruence|]. by rewrite successes_app, Hsucc, Hsucc'.
      * right. split; [done|]. exists (new ++ before), message.
        rewrite <-app_assoc. split; [done|].
        by rewrite successes_app, Hsucc, Hb.
    + exists w. split; [done|]. exists new. split; [done|]. by left.
  - exists w. split; [done|]. exists new. split; [done|]. by right.
Qed.

(** Whatever the child processes do, [_build_with_fallbacks] has two
    outcomes only.  Either it returns, and then exactly one strategy has
    printed its success line and that line is the last thing printed: no
    strategy is attempted after the first that succeeds.  Or it raises
    [All build strategies failed], and then no success line was printed.
    The value the success flag had before the call has no bearing. *)
Theorem build_with_fallbacks_returns_on_first_success
    (project_dir framework : string) (w : world) :
  ∃ r w' new,
    _build_with_fallbacks subprocess_run project_dir framework w = (r, w')
    ∧ console w' = console w ++ new
    ∧ ((r = Return tt ∧ ends_with_only_success new)
       ∨ (r = Raise "All build strategies failed" ∧ successes new = [])).
Proof.
  unfold _build_with_fallbacks. rewrite bind_run.
  unfold set_build_successful at 1, modify at 1.
  set (w0 := {| fs := fs w; console := console w; build_successful := false |}).
  assert (ladder_state w0 w0) as Hstate0.
  { exists []. rewrite app_nil_r. split; [done|]. by left. }
  destruct (unless_built_keeps true (standard_build subprocess_run project_dir)
              w0 w0 (announced_run_block _ _ _ _ _) Hstate0)
    as (w1 & Hrun1 & Hstate1).
  destruct (unless_built_keeps true
              (framework_specific_build subprocess_run project_dir framework)
              w0 w1 (framework_specific_build_block _ _) Hstate1)
    as (w2 & Hrun2 & Hstate2).
  destruct (unless_built_keeps (String.eqb framework "vite")
              (forced_base_build subprocess_run project_dir)
              w0 w2 (announced_run_block _ _ _ _ _) Hstate2)
    as (w3 & Hrun3 & Hstate3).
  destruct (unless_built_keeps (String.eqb framework "vite")
              (build_without_config subprocess_run project_dir)
              w0 w3 (build_without_config_block _) Hstate3)
    as (w4 & Hrun4 & (new & Hcons & Hstate4)).
  rewrite bind_run, Hrun1, bind_run, Hrun2, bind_run, Hrun3, bind_run, Hrun4.
  rewrite bind_run. unfold get_build_successful.
  destruct Hstate4 as [[Hflag Hsucc]|[Hflag Hlast]]; rewrite Hflag; simpl;
    eexists _, w4, new; (split; [done|]); (split; [done|]); [right|left]; done.
Qed.

End ladder_outcome.
